(** * A shallow embedding of the RabbitMQ client layer and of the payment
      service's retry / dead-letter policy

    Sources embedded here:
    - [src/shared/rabbitmq-client.js]  (class [RabbitMQClient])
    - [src/shared/config.js]           (the constants the client reads)
    - [src/services/payment/index.js]  ([processPayment], [handleRetry],
      [handleDeadLetter], the registrations made by [start])

    JavaScript objects are finite maps from property names to values,
    [async] functions are computations in a monad that threads the state of
    the process, may throw, and may suspend on the channel's [drain] event.
    Everything the code asks of the outside world (the amqplib calls, the
    clock, [Math.random]) is logged in a history and answered by an
    environment that may depend on the whole history so far. Calls to the
    logger are left out: they write to the console and return. *)

From Stdlib Require Import ZArith QArith HexadecimalString.
From stdpp Require Import base option countable strings list gmap fin_maps pretty.

Local Open Scope string_scope.
Local Open Scope Z_scope.

(** ** JavaScript values *)

(** The primitive values that occur in message bodies. *)
Inductive Scalar : Type :=
| SUndef
| SBool (b : bool)
| SNum (n : Z)
| SStr (s : string).

#[global] Instance Scalar_eq_dec : EqDecision Scalar.
Proof. solve_decision. Defined.

#[global] Instance Scalar_countable : Countable Scalar.
Proof.
  refine (inj_countable'
    (fun v => match v with
              | SUndef => inl (inl tt)
              | SBool b => inl (inr b)
              | SNum n => inr (inl n)
              | SStr s => inr (inr s)
              end)
    (fun c => match c with
              | inl (inl _) => SUndef
              | inl (inr b) => SBool b
              | inr (inl n) => SNum n
              | inr (inr s) => SStr s
              end) _).
  by intros [].
Defined.

(** A flat object literal such as a payment request: property name to value.
    Reading a missing property gives [undefined]. *)
Definition prop (o : gmap string Scalar) (k : string) : Scalar :=
  default SUndef (o !! k).

(** Values of an options object: a primitive, or a table of numeric headers
    (every producer in this repository writes numbers into [headers]). *)
Inductive JsVal : Type :=
| VSc (s : Scalar)
| VHeaders (h : gmap string Z).

#[global] Instance JsVal_eq_dec : EqDecision JsVal.
Proof. solve_decision. Defined.

(** JavaScript truthiness. *)
Definition truthy_scalar (v : Scalar) : bool :=
  match v with
  | SUndef => false
  | SBool b => b
  | SNum n => negb (Z.eqb n 0)
  | SStr s => negb (String.eqb s "")
  end.

Definition truthy (v : JsVal) : bool :=
  match v with
  | VSc s => truthy_scalar s
  | VHeaders _ => true
  end.

(** [{ ...defaults, ...options }]: the keys of [options] win. *)
Definition spread (defaults options : gmap string JsVal) : gmap string JsVal :=
  options ∪ defaults.

(** A message body: [Buffer.from(JSON.stringify(o))], or bytes that
    [JSON.parse] rejects. *)
Inductive Body : Type :=
| Json (o : gmap string Scalar)
| Garbage (raw : string).

(** [JSON.stringify] drops the properties whose value is [undefined]. *)
Definition JSON_stringify (o : gmap string Scalar) : Body :=
  Json (filter (fun kv => kv.2 <> SUndef) o).

(** ** Errors and results *)

Inductive Err : Type :=
| ChannelNotInitialized          (* [new Error('Channel not initialized')] *)
| LibErr (m : string)            (* raised inside amqplib *)
| AppErr (m : string)            (* raised by the payment gateway *)
| SyntaxErr                      (* raised by [JSON.parse] *)
| TypeErr.                       (* a method call on [null] *)

Definition message_of (e : Err) : string :=
  match e with
  | ChannelNotInitialized => "Channel not initialized"
  | LibErr m => m
  | AppErr m => m
  | SyntaxErr => "Unexpected token in JSON"
  | TypeErr => "Cannot read properties of null"
  end.

Inductive Outcome (A : Type) : Type :=
| Returned (a : A)
| Thrown (e : Err).
Arguments Returned {A} a.
Arguments Thrown {A} e.

(** ** What the process asks of the outside world *)

Inductive Op : Type :=
| OpConnect (url : string) (heartbeat : Z)
| OpCreateChannel (conn : nat)
| OpPrefetch (ch : nat) (count : Z)
| OpAssertExchange (ch : nat) (exchange type : string) (opts : gmap string JsVal)
| OpAssertQueue (ch : nat) (queue : string) (opts : gmap string JsVal)
| OpBindQueue (ch : nat) (queue exchange routingKey : string) (args : gmap string JsVal)
| OpPublish (ch : nat) (exchange routingKey : string) (body : Body) (opts : gmap string JsVal)
| OpSendToQueue (ch : nat) (queue : string) (body : Body) (opts : gmap string JsVal)
| OpConsume (ch : nat) (queue : string) (opts : gmap string JsVal)
| OpCancel (ch : nat) (consumerTag : string)
| OpAck (ch : nat) (deliveryTag : Z)
| OpNack (ch : nat) (deliveryTag : Z) (allUpTo requeue : bool)
| OpChannelClose (ch : nat)
| OpConnectionClose (conn : nat)
| OpSetTimeout (timer : nat) (delay : Z)
| OpClearTimeout (timer : nat)
| OpDateNow
| OpMathRandom.

(** An answer of amqplib: a value, or an error with its message. *)
Inductive Reply (A : Type) : Type :=
| Resolved (a : A)
| Rejected (m : string).
Arguments Resolved {A} a.
Arguments Rejected {A} m.

Definition outcome_of {A} (r : Reply A) : Outcome A :=
  match r with
  | Resolved a => Returned a
  | Rejected m => Thrown (LibErr m)
  end.

(** The environment answers each request from the history that ends with
    it (newest entry first). Promises of amqplib resolve or reject; the
    synchronous channel writes return the flow-control flag or throw. *)
Record Env : Type := {
  amqp_connect : list Op -> Reply nat;            (* the connection object *)
  create_channel : list Op -> Reply nat;          (* the channel object *)
  settle : list Op -> Reply unit;                 (* prefetch, assert, bind, cancel, close, ack, nack *)
  queue_depth : list Op -> Reply Z;               (* assertQueue's messageCount *)
  consumer_tag : list Op -> Reply string;         (* consume's consumerTag *)
  accepted : list Op -> Reply bool;               (* publish / sendToQueue *)
  clock : list Op -> Z;                           (* Date.now() *)
  random : list Op -> Q;                          (* Math.random() *)
  base36 : Q -> string;                           (* .toString(36).substr(2, 9) *)
  iso : Z -> string                               (* Date#toISOString *)
}.

(** ** [src/shared/config.js] *)

Record Config : Type := {
  rabbitmq_host : string;
  rabbitmq_port : Z;
  rabbitmq_username : string;
  rabbitmq_password : string;
  rabbitmq_vhost : string;
  rabbitmq_heartbeat : Z;
  rabbitmq_reconnectInterval : Z;
  retry_maxAttempts : Z;
  exchanges_ordersFanout : string;
  exchanges_ordersTopic : string;
  queues_paymentsProcess : string;
  queues_paymentsRetry : string;
  queues_paymentsDead : string
}.

(** The values [config.js] takes when no environment variable is set. *)
Definition config : Config := {|
  rabbitmq_host := "localhost";
  rabbitmq_port := 5672;
  rabbitmq_username := "admin";
  rabbitmq_password := "admin123";
  rabbitmq_vhost := "/";
  rabbitmq_heartbeat := 60;
  rabbitmq_reconnectInterval := 5000;
  retry_maxAttempts := 3;
  exchanges_ordersFanout := "orders.fanout";
  exchanges_ordersTopic := "orders.topic";
  queues_paymentsProcess := "payments.process";
  queues_paymentsRetry := "payments.retry";
  queues_paymentsDead := "payments.dead"
|}.

(** ** The state of one service process *)

Record World : Type := {
  (* the fields of the [RabbitMQClient] instance *)
  serviceName : string;
  connection : option nat;
  channel : option nat;
  isConnected : bool;
  reconnectTimer : option nat;
  consumers : gmap string string;
  (* the timers of the JavaScript runtime that have not fired yet *)
  timers : list nat;
  next_timer : nat;
  (* the module-level stores of the payment service *)
  payments : gmap Scalar (gmap string Scalar);
  failedPayments : gmap Scalar (gmap string Scalar);
  (* everything asked of the outside world so far, newest first *)
  hist : list Op
}.

(** [new RabbitMQClient(serviceName)] in a fresh process. *)
Definition new_client (name : string) : World := {|
  serviceName := name;
  connection := None;
  channel := None;
  isConnected := false;
  reconnectTimer := None;
  consumers := ∅;
  timers := [];
  next_timer := 0;
  payments := ∅;
  failedPayments := ∅;
  hist := []
|}.

Definition set_connection (c : option nat) (w : World) : World :=
  {| serviceName := serviceName w; connection := c; channel := channel w;
     isConnected := isConnected w; reconnectTimer := reconnectTimer w;
     consumers := consumers w; timers := timers w; next_timer := next_timer w;
     payments := payments w; failedPayments := failedPayments w; hist := hist w |}.

Definition set_channel (c : option nat) (w : World) : World :=
  {| serviceName := serviceName w; connection := connection w; channel := c;
     isConnected := isConnected w; reconnectTimer := reconnectTimer w;
     consumers := consumers w; timers := timers w; next_timer := next_timer w;
     payments := payments w; failedPayments := failedPayments w; hist := hist w |}.

Definition set_isConnected (b : bool) (w : World) : World :=
  {| serviceName := serviceName w; connection := connection w; channel := channel w;
     isConnected := b; reconnectTimer := reconnectTimer w;
     consumers := consumers w; timers := timers w; next_timer := next_timer w;
     payments := payments w; failedPayments := failedPayments w; hist := hist w |}.

Definition set_reconnectTimer (t : option nat) (w : World) : World :=
  {| serviceName := serviceName w; connection := connection w; channel := channel w;
     isConnected := isConnected w; reconnectTimer := t;
     consumers := consumers w; timers := timers w; next_timer := next_timer w;
     payments := payments w; failedPayments := failedPayments w; hist := hist w |}.

Definition set_consumers (m : gmap string string) (w : World) : World :=
  {| serviceName := serviceName w; connection := connection w; channel := channel w;
     isConnected := isConnected w; reconnectTimer := reconnectTimer w;
     consumers := m; timers := timers w; next_timer := next_timer w;
     payments := payments w; failedPayments := failedPayments w; hist := hist w |}.

Definition set_timers (l : list nat) (n : nat) (w : World) : World :=
  {| serviceName := serviceName w; connection := connection w; channel := channel w;
     isConnected := isConnected w; reconnectTimer := reconnectTimer w;
     consumers := consumers w; timers := l; next_timer := n;
     payments := payments w; failedPayments := failedPayments w; hist := hist w |}.

Definition set_payments (m : gmap Scalar (gmap string Scalar)) (w : World) : World :=
  {| serviceName := serviceName w; connection := connection w; channel := channel w;
     isConnected := isConnected w; reconnectTimer := reconnectTimer w;
     consumers := consumers w; timers := timers w; next_timer := next_timer w;
     payments := m; failedPayments := failedPayments w; hist := hist w |}.

Definition set_failedPayments (m : gmap Scalar (gmap string Scalar)) (w : World) : World :=
  {| serviceName := serviceName w; connection := connection w; channel := channel w;
     isConnected := isConnected w; reconnectTimer := reconnectTimer w;
     consumers := consumers w; timers := timers w; next_timer := next_timer w;
     payments := payments w; failedPayments := m; hist := hist w |}.

Definition log (op : Op) (w : World) : World :=
  {| serviceName := serviceName w; connection := connection w; channel := channel w;
     isConnected := isConnected w; reconnectTimer := reconnectTimer w;
     consumers := consumers w; timers := timers w; next_timer := next_timer w;
     payments := payments w; failedPayments := failedPayments w; hist := op :: hist w |}.

(** ** Asynchronous computations *)

(** A call has either settled, or it is parked on
    [new Promise((resolve) => this.channel.once('drain', resolve))]; the
    continuation runs in the state the process has when the channel emits
    [drain]. No other event resumes it. *)
Inductive Step (A : Type) : Type :=
| Fin (w : World) (r : Outcome A)
| Drain (w : World) (k : World -> Step A).
Arguments Fin {A} w r.
Arguments Drain {A} w k.

Definition M (A : Type) : Type := World -> Step A.

Definition ret {A} (a : A) : M A := fun w => Fin w (Returned a).
Definition throw {A} (e : Err) : M A := fun w => Fin w (Thrown e).

Fixpoint bindS {A B} (s : Step A) (f : A -> M B) : Step B :=
  match s with
  | Fin w (Returned a) => f a w
  | Fin w (Thrown e) => Fin w (Thrown e)
  | Drain w k => Drain w (fun w' => bindS (k w') f)
  end.

Definition bind {A B} (m : M A) (f : A -> M B) : M B := fun w => bindS (m w) f.

(** [try { m } catch (error) { h error }] *)
Fixpoint catchS {A} (s : Step A) (h : Err -> M A) : Step A :=
  match s with
  | Fin w (Returned a) => Fin w (Returned a)
  | Fin w (Thrown e) => h e w
  | Drain w k => Drain w (fun w' => catchS (k w') h)
  end.

Definition try_catch {A} (m : M A) (h : Err -> M A) : M A := fun w => catchS (m w) h.

Notation "x <- c ;; k" := (bind c (fun x => k))
  (at level 100, c at next level, right associativity).
Notation "c ;;; k" := (bind c (fun _ => k))
  (at level 100, right associativity).

Definition get {A} (f : World -> A) : M A := fun w => Fin w (Returned (f w)).
Definition modify (f : World -> World) : M unit := fun w => Fin (f w) (Returned tt).
Definition await_drain : M unit := fun w => Drain w (fun w' => Fin w' (Returned tt)).

(** Ask the outside world: the request is logged, then answered. *)
Definition request {A} (op : Op) (answer : list Op -> Reply A) : M A :=
  fun w => Fin (log op w) (outcome_of (answer (op :: hist w))).

Definition observe {A} (op : Op) (answer : list Op -> A) : M A :=
  fun w => Fin (log op w) (Returned (answer (op :: hist w))).

(** The channel emits [drain] as soon as a call waits for it and nothing
    else runs in between. *)
Fixpoint settle_all {A} (s : Step A) : World * Outcome A :=
  match s with
  | Fin w r => (w, r)
  | Drain w k => settle_all (k w)
  end.

(** What a parked call does on the events of the channel: only [drain]
    wakes it up. *)
Inductive Signal : Type := SigDrain | SigError | SigClose | SigOther.

Definition on_signal {A} (sg : Signal) (w' : World) (s : Step A) : Step A :=
  match s, sg with
  | Drain _ k, SigDrain => k w'
  | _, _ => s
  end.

Definition settled {A} (s : Step A) : option (Outcome A) :=
  match s with
  | Fin _ r => Some r
  | Drain _ _ => None
  end.

Definition world_of {A} (s : Step A) : World :=
  match s with
  | Fin w _ => w
  | Drain w _ => w
  end.

(** A delivery handed to a consumer callback: [msg.content],
    [msg.properties.messageId], [msg.properties.headers],
    [msg.fields.deliveryTag], [msg.fields.redelivered]. *)
Record Delivery : Type := {
  content : Body;
  messageId : Scalar;
  headers : option (gmap string Z);
  deliveryTag : Z;
  redelivered : bool
}.

Definition JSON_parse (b : Body) : M (gmap string Scalar) :=
  match b with
  | Json o => ret o
  | Garbage _ => throw SyntaxErr
  end.

Fixpoint for_each {A} (l : list A) (f : A -> M unit) : M unit :=
  match l with
  | [] => ret tt
  | x :: l' => f x ;;; for_each l' f
  end.

(** ** [src/shared/rabbitmq-client.js] *)

Section Client.
Variable env : Env.
Variable cfg : Config.

Definition amqpUrl : string :=
  "amqp://" +:+ rabbitmq_username cfg +:+ ":" +:+ rabbitmq_password cfg +:+ "@"
    +:+ rabbitmq_host cfg +:+ ":" +:+ pretty (rabbitmq_port cfg) +:+ rabbitmq_vhost cfg.

(** [setTimeout(callback, delay)]: the runtime hands out a fresh timer
    and keeps it until it fires or is cleared. *)
Definition setTimeout (delay : Z) : M nat := fun w =>
  let t := next_timer w in
  Fin (log (OpSetTimeout t delay) (set_timers (t :: timers w) (S t) w)) (Returned t).

Definition clearTimeout (t : nat) : M unit := fun w =>
  Fin (log (OpClearTimeout t)
         (set_timers (List.filter (fun x => negb (Nat.eqb x t)) (timers w)) (next_timer w) w))
      (Returned tt).

Definition scheduleReconnect : M unit :=
  pending <- get reconnectTimer ;;
  match pending with
  | Some _ => ret tt
  | None =>
      t <- setTimeout (rabbitmq_reconnectInterval cfg) ;;
      modify (set_reconnectTimer (Some t))
  end.

Definition connect : M bool :=
  try_catch
    (conn <- request (OpConnect amqpUrl (rabbitmq_heartbeat cfg)) (amqp_connect env) ;;
     modify (set_connection (Some conn)) ;;;
     ch <- request (OpCreateChannel conn) (create_channel env) ;;
     modify (set_channel (Some ch)) ;;;
     request (OpPrefetch ch 1) (settle env) ;;;
     modify (set_isConnected true) ;;;
     ret true)
    (fun error =>
       scheduleReconnect ;;;
       ret false).

(** The listeners [connect] installs on the connection. *)
Definition on_connection_error : M unit :=
  modify (set_isConnected false).

Definition on_connection_close : M unit :=
  modify (set_isConnected false) ;;;
  scheduleReconnect.

(** The listeners on the channel only write to the log. *)
Definition on_channel_error : M unit := ret tt.
Definition on_channel_close : M unit := ret tt.

(** The callback given to [setTimeout] by [scheduleReconnect];
    the promise of [connect] is dropped. *)
Definition reconnect_callback : M unit :=
  modify (set_reconnectTimer None) ;;;
  connect ;;;
  ret tt.

Definition require_channel : M nat :=
  chan <- get channel ;;
  match chan with
  | None => throw ChannelNotInitialized
  | Some ch => ret ch
  end.

Definition topology_defaults : gmap string JsVal :=
  {[ "durable" := VSc (SBool true); "autoDelete" := VSc (SBool false) ]}.

Definition assertExchange (exchange type : string) (options : gmap string JsVal) : M unit :=
  ch <- require_channel ;;
  let defaultOptions := spread topology_defaults options in
  request (OpAssertExchange ch exchange type defaultOptions) (settle env).

Definition assertQueue (queue : string) (options : gmap string JsVal) : M Z :=
  ch <- require_channel ;;
  let defaultOptions := spread topology_defaults options in
  result <- request (OpAssertQueue ch queue defaultOptions) (queue_depth env) ;;
  ret result.

Definition bindQueue (queue exchange routingKey : string) (args : gmap string JsVal) : M unit :=
  ch <- require_channel ;;
  request (OpBindQueue ch queue exchange routingKey args) (settle env).

Definition generateMessageId : M string :=
  name <- get serviceName ;;
  now <- observe OpDateNow (clock env) ;;
  r <- observe OpMathRandom (random env) ;;
  ret (name +:+ "-" +:+ pretty now +:+ "-" +:+ base36 env r).

Definition publish_defaults (timestamp : Z) (id : string) : gmap string JsVal :=
  {[ "persistent" := VSc (SBool true);
     "contentType" := VSc (SStr "application/json");
     "timestamp" := VSc (SNum timestamp);
     "messageId" := VSc (SStr id) ]}.

Definition publish (exchange routingKey : string) (message : gmap string Scalar)
    (options : gmap string JsVal) : M JsVal :=
  ch <- require_channel ;;
  let messageBuffer := JSON_stringify message in
  timestamp <- observe OpDateNow (clock env) ;;
  id <- generateMessageId ;;
  let defaultOptions := spread (publish_defaults timestamp id) options in
  published <- request (OpPublish ch exchange routingKey messageBuffer defaultOptions)
                 (accepted env) ;;
  (if published : bool then ret tt else await_drain) ;;;
  ret (default (VSc SUndef) (defaultOptions !! "messageId")).

Definition publishWithHeaders (exchange : string) (message : gmap string Scalar)
    (hdrs : gmap string Z) (options : gmap string JsVal) : M JsVal :=
  publish exchange "" message (<["headers" := VHeaders hdrs]> options).

Definition sendToQueue (queue : string) (message : gmap string Scalar)
    (options : gmap string JsVal) : M JsVal :=
  ch <- require_channel ;;
  let messageBuffer := JSON_stringify message in
  timestamp <- observe OpDateNow (clock env) ;;
  id <- generateMessageId ;;
  let defaultOptions := spread (publish_defaults timestamp id) options in
  sent <- request (OpSendToQueue ch queue messageBuffer defaultOptions) (accepted env) ;;
  (if sent : bool then ret tt else await_drain) ;;;
  ret (default (VSc SUndef) (defaultOptions !! "messageId")).

Definition consume_defaults : gmap string JsVal :=
  {[ "noAck" := VSc (SBool false) ]}.

(** [this.channel.ack(msg)] and [this.channel.nack(msg, allUpTo, requeue)];
    [this.channel] is read when the statement runs. *)
Definition channel_ack (msg : Delivery) : M unit :=
  chan <- get channel ;;
  match chan with
  | None => throw TypeErr
  | Some ch => request (OpAck ch (deliveryTag msg)) (settle env)
  end.

Definition channel_nack (msg : Delivery) (allUpTo requeue : bool) : M unit :=
  chan <- get channel ;;
  match chan with
  | None => throw TypeErr
  | Some ch => request (OpNack ch (deliveryTag msg) allUpTo requeue) (settle env)
  end.

(** The callback [consume] hands to [channel.consume]: what happens on
    each delivery ([None] is the null message of a cancelled consumer). *)
(** [defaultOptions.noAck] of [consume], as a condition. *)
Definition noAck_of (options : gmap string JsVal) : bool :=
  let defaultOptions := spread consume_defaults options in
  truthy (default (VSc SUndef) (defaultOptions !! "noAck")).

Definition on_message (handler : gmap string Scalar -> Delivery -> M unit)
    (options : gmap string JsVal) (delivery : option Delivery) : M unit :=
  let noAck := noAck_of options in
  match delivery with
  | None => ret tt
  | Some msg =>
      try_catch
        (body <- JSON_parse (content msg) ;;
         handler body msg ;;;
         if negb noAck then channel_ack msg else ret tt)
        (fun error =>
           if negb noAck then
             let requeue := negb (redelivered msg) in
             channel_nack msg false requeue
           else ret tt)
  end.

Definition consume (queue : string) (options : gmap string JsVal) : M string :=
  ch <- require_channel ;;
  let defaultOptions := spread consume_defaults options in
  consumerTag <- request (OpConsume ch queue defaultOptions) (consumer_tag env) ;;
  modify (fun w => set_consumers (<[queue := consumerTag]> (consumers w)) w) ;;;
  ret consumerTag.

Definition cancelConsumer (queue : string) : M unit :=
  registered <- get (fun w => consumers w !! queue) ;;
  chan <- get channel ;;
  match registered, chan with
  | Some consumerTag, Some ch =>
      if negb (String.eqb consumerTag "") then
        request (OpCancel ch consumerTag) (settle env) ;;;
        modify (fun w => set_consumers (delete queue (consumers w)) w)
      else ret tt
  | _, _ => ret tt
  end.

(** The first statement of [close()]:
    [if (this.reconnectTimer) { clearTimeout(...); this.reconnectTimer = null; }] *)
Definition clear_reconnect_timer : M unit :=
  pending <- get reconnectTimer ;;
  match pending with
  | Some t => clearTimeout t ;;; modify (set_reconnectTimer None)
  | None => ret tt
  end.

(** [close()]. The loop visits the queues registered when it starts;
    [cancelConsumer] removes only the queue it is called on. *)
Definition close : M unit :=
  try_catch
    (clear_reconnect_timer ;;;
     queues <- get (fun w => (map_to_list (consumers w)).*1) ;;
     for_each queues cancelConsumer ;;;
     chan <- get channel ;;
     match chan with
     | Some ch => request (OpChannelClose ch) (settle env)
     | None => ret tt
     end ;;;
     conn <- get connection ;;
     match conn with
     | Some c => request (OpConnectionClose c) (settle env)
     | None => ret tt
     end ;;;
     modify (set_isConnected false))
    (fun error => ret tt).

Definition isHealthy (w : World) : bool :=
  isConnected w && bool_decide (channel w <> None).

End Client.

(** ** [src/services/payment/index.js] *)

(** [(msg.properties.headers && msg.properties.headers['x-retry-count']) || 0] *)
Definition or_zero (v : option Z) : Z :=
  match v with
  | Some n => if Z.eqb n 0 then 0 else n
  | None => 0
  end.

Definition retry_count (msg : Delivery) : Z :=
  or_zero (headers msg ≫= fun h => h !! "x-retry-count").

Definition Qltb (x y : Q) : bool := negb (Qle_bool y x).

Section Payment.
Variable env : Env.
Variable cfg : Config.

(** [new Date().toISOString()] *)
Definition now_iso : M Scalar :=
  t <- observe OpDateNow (clock env) ;;
  ret (SStr (iso env t)).

Definition simulatePaymentGateway (amount : Scalar) : M (gmap string Scalar) :=
  r <- observe OpMathRandom (random env) ;;
  if Qltb r (3 # 10) then throw (AppErr "Payment gateway timeout")
  else if Qltb r (4 # 10) then throw (AppErr "Insufficient funds")
  else
    now <- observe OpDateNow (clock env) ;;
    suffix <- observe OpMathRandom (random env) ;;
    timestamp <- now_iso ;;
    ret ({[ "transactionId" := SStr ("TXN-" +:+ pretty now +:+ "-" +:+ base36 env suffix);
            "status" := SStr "completed";
            "timestamp" := timestamp ]} : gmap string Scalar).

Definition processPayment (paymentData : gmap string Scalar) (msg : Delivery) : M unit :=
  let retryCount := retry_count msg in
  try_catch
    (result <- simulatePaymentGateway (prop paymentData "amount") ;;
     processedAt <- now_iso ;;
     let payment :=
       <["processedAt" := processedAt]>
         (<["retryCount" := SNum retryCount]> (result ∪ paymentData)) in
     modify (fun w => set_payments (<[prop paymentData "orderId" := payment]> (payments w)) w) ;;;
     timestamp <- now_iso ;;
     publish env (exchanges_ordersFanout cfg) ""
       {[ "eventType" := SStr "payment.success";
          "orderId" := prop paymentData "orderId";
          "transactionId" := prop result "transactionId";
          "amount" := prop paymentData "amount";
          "timestamp" := timestamp ]} ∅ ;;;
     let shippingAddress :=
       if truthy_scalar (prop paymentData "shippingAddress")
       then prop paymentData "shippingAddress" else SStr "Default Address" in
     timestamp' <- now_iso ;;
     publish env (exchanges_ordersTopic cfg) "shipping.create"
       {[ "orderId" := prop paymentData "orderId";
          "shippingAddress" := shippingAddress;
          "timestamp" := timestamp' ]} ∅ ;;;
     ret tt)
    (fun error =>
       if retryCount <? retry_maxAttempts cfg then
         throw error
       else
         failedAt <- now_iso ;;
         let failed :=
           <["failedAt" := failedAt]>
             (<["retryCount" := SNum retryCount]>
                (<["error" := SStr (message_of error)]> paymentData)) in
         modify (fun w =>
           set_failedPayments (<[prop paymentData "orderId" := failed]> (failedPayments w)) w) ;;;
         timestamp <- now_iso ;;
         publish env (exchanges_ordersFanout cfg) ""
           {[ "eventType" := SStr "payment.failed";
              "orderId" := prop paymentData "orderId";
              "error" := SStr (message_of error);
              "retryCount" := SNum retryCount;
              "timestamp" := timestamp ]} ∅ ;;;
         throw error).

Definition handleRetry (retryData : gmap string Scalar) (msg : Delivery) : M unit :=
  let currentRetryCount := retry_count msg in
  let newRetryCount := currentRetryCount + 1 in
  sendToQueue env (queues_paymentsProcess cfg) retryData
    {[ "headers" := VHeaders {[ "x-retry-count" := newRetryCount ]} ]} ;;;
  ret tt.

Definition handleDeadLetter (deadData : gmap string Scalar) (msg : Delivery) : M unit :=
  deadLetteredAt <- now_iso ;;
  let record :=
    <["reason" := SStr "Max retries exceeded or permanent failure"]>
      (<["deadLetteredAt" := deadLetteredAt]> deadData) in
  modify (fun w =>
    set_failedPayments (<[prop deadData "orderId" := record]> (failedPayments w)) w).

(** [POST /payments/:orderId/retry]; the result is the [success] field
    of the response. *)
Definition manual_retry (orderId : string) : M bool :=
  found <- get (fun w => failedPayments w !! SStr orderId) ;;
  match found with
  | None => ret false
  | Some failed =>
      sendToQueue env (queues_paymentsProcess cfg)
        {[ "orderId" := prop failed "orderId";
           "userId" := prop failed "userId";
           "amount" := prop failed "amount";
           "method" := prop failed "method" ]}
        {[ "headers" := VHeaders {[ "x-retry-count" := 0 ]} ]} ;;;
      modify (fun w => set_failedPayments (delete (SStr orderId) (failedPayments w)) w) ;;;
      ret true
  end.

(** The three handlers [start] passes to [consume]. [handleRetry] is not
    among them: the retry queue gets an inline handler that only logs. *)
Inductive Handler : Type :=
| ProcessPaymentHandler
| RetryQueueMonitor
| DeadLetterHandler.

Definition run_handler (h : Handler) : gmap string Scalar -> Delivery -> M unit :=
  match h with
  | ProcessPaymentHandler => fun message msg => processPayment message msg
  | RetryQueueMonitor => fun message msg => ret tt
  | DeadLetterHandler => fun message msg => handleDeadLetter message msg
  end.

Definition registrations : list (string * Handler) :=
  [ (queues_paymentsProcess cfg, ProcessPaymentHandler);
    (queues_paymentsRetry cfg, RetryQueueMonitor);
    (queues_paymentsDead cfg, DeadLetterHandler) ].

(** [start()]: [true] when the service is consuming, [false] when it
    exits with status 1. The result of [connect] is not looked at. *)
Definition start : M bool :=
  try_catch
    (connect env cfg ;;;
     for_each registrations (fun r => consume env r.1 ∅ ;;; ret tt) ;;;
     ret true)
    (fun error => ret false).

(** The consumer callback that [start] installs on a queue. *)
Definition callback_of (queue : string) : option (option Delivery -> M unit) :=
  match List.find (fun r => String.eqb r.1 queue) registrations with
  | Some r => Some (on_message env (run_handler r.2) ∅)
  | None => None
  end.

End Payment.

(** Modelled from the spec: the broker is outside this repository. A
    message rejected with requeue comes back on the same queue, its body and
    properties untouched, with the redelivered flag set. *)
Definition broker_requeue (msg : Delivery) : Delivery :=
  {| content := content msg; messageId := messageId msg; headers := headers msg;
     deliveryTag := deliveryTag msg + 1; redelivered := true |}.

(** ** The life of a process as a sequence of events *)

(** The calls a service makes on its client, the listeners the client
    installed, the timer of [scheduleReconnect], and the deliveries and
    HTTP requests of the payment service. Each event runs to completion
    before the next one; a call parked on [drain] is resumed by it. *)
Inductive Event : Type :=
| EvConnect
| EvClose
| EvAssertExchange (exchange type : string) (options : gmap string JsVal)
| EvAssertQueue (queue : string) (options : gmap string JsVal)
| EvBindQueue (queue exchange routingKey : string) (args : gmap string JsVal)
| EvPublish (exchange routingKey : string) (message : gmap string Scalar)
    (options : gmap string JsVal)
| EvPublishWithHeaders (exchange : string) (message : gmap string Scalar)
    (hdrs : gmap string Z) (options : gmap string JsVal)
| EvSendToQueue (queue : string) (message : gmap string Scalar) (options : gmap string JsVal)
| EvConsume (queue : string) (options : gmap string JsVal)
| EvCancelConsumer (queue : string)
| EvConnectionError
| EvConnectionClose
| EvChannelError
| EvChannelClose
| EvTimer (t : nat)
| EvDelivery (queue : string) (delivery : option Delivery)
| EvManualRetry (orderId : string).

Definition ignore {A} (m : M A) : M unit := m ;;; ret tt.

Section Process.
Variable env : Env.
Variable cfg : Config.

(** The runtime fires a timer that is still pending, and forgets it. *)
Definition fire_timer (t : nat) : M unit := fun w =>
  if bool_decide (t ∈ timers w) then
    reconnect_callback env cfg
      (set_timers (List.filter (fun x => negb (Nat.eqb x t)) (timers w)) (next_timer w) w)
  else Fin w (Returned tt).

Definition handle (ev : Event) : M unit :=
  match ev with
  | EvConnect => ignore (connect env cfg)
  | EvClose => close env
  | EvAssertExchange exchange type options => assertExchange env exchange type options
  | EvAssertQueue queue options => ignore (assertQueue env queue options)
  | EvBindQueue queue exchange routingKey args => bindQueue env queue exchange routingKey args
  | EvPublish exchange routingKey message options =>
      ignore (publish env exchange routingKey message options)
  | EvPublishWithHeaders exchange message hdrs options =>
      ignore (publishWithHeaders env exchange message hdrs options)
  | EvSendToQueue queue message options => ignore (sendToQueue env queue message options)
  | EvConsume queue options => ignore (consume env queue options)
  | EvCancelConsumer queue => cancelConsumer env queue
  | EvConnectionError => on_connection_error
  | EvConnectionClose => on_connection_close cfg
  | EvChannelError => on_channel_error
  | EvChannelClose => on_channel_close
  | EvTimer t => fire_timer t
  | EvDelivery queue delivery =>
      match callback_of env cfg queue with
      | Some callback => callback delivery
      | None => ret tt
      end
  | EvManualRetry orderId => ignore (manual_retry env cfg orderId)
  end.

Definition run_event (ev : Event) (w : World) : World :=
  (settle_all (handle ev w)).1.

Definition run_events (evs : list Event) (w : World) : World :=
  fold_left (fun w ev => run_event ev w) evs w.

End Process.

(** ** Environments used in the examples *)

(** The broker is up and never pushes back; the gateway accepts. *)
Definition env_up : Env := {|
  amqp_connect := fun _ => Resolved 1%nat;
  create_channel := fun _ => Resolved 1%nat;
  settle := fun _ => Resolved tt;
  queue_depth := fun _ => Resolved 0;
  consumer_tag := fun _ => Resolved "amq.ctag-1";
  accepted := fun _ => Resolved true;
  clock := fun _ => 1700000000000;
  random := fun _ => 1 # 2;
  base36 := fun _ => "k3j9x0q1z";
  iso := fun _ => "2023-11-14T22:13:20.000Z"
|}.

(** The broker cannot be reached. *)
Definition env_down : Env := {|
  amqp_connect := fun _ => Rejected "connect ECONNREFUSED";
  create_channel := fun _ => Rejected "Connection closed";
  settle := fun _ => Rejected "Channel closed";
  queue_depth := fun _ => Rejected "Channel closed";
  consumer_tag := fun _ => Rejected "Channel closed";
  accepted := fun _ => Rejected "Channel closed";
  clock := fun _ => 1700000000000;
  random := fun _ => 1 # 2;
  base36 := fun _ => "k3j9x0q1z";
  iso := fun _ => "2023-11-14T22:13:20.000Z"
|}.

(** The broker is up but the write buffer of the socket is full. *)
Definition env_full : Env := {|
  amqp_connect := fun _ => Resolved 1%nat;
  create_channel := fun _ => Resolved 1%nat;
  settle := fun _ => Resolved tt;
  queue_depth := fun _ => Resolved 0;
  consumer_tag := fun _ => Resolved "amq.ctag-1";
  accepted := fun _ => Resolved false;
  clock := fun _ => 1700000000000;
  random := fun _ => 1 # 2;
  base36 := fun _ => "k3j9x0q1z";
  iso := fun _ => "2023-11-14T22:13:20.000Z"
|}.

(** The broker is up; [Math.random()] always gives 0.1, so the payment
    gateway times out on every call. *)
Definition env_gateway_down : Env := {|
  amqp_connect := fun _ => Resolved 1%nat;
  create_channel := fun _ => Resolved 1%nat;
  settle := fun _ => Resolved tt;
  queue_depth := fun _ => Resolved 0;
  consumer_tag := fun _ => Resolved "amq.ctag-1";
  accepted := fun _ => Resolved true;
  clock := fun _ => 1700000000000;
  random := fun _ => 1 # 10;
  base36 := fun _ => "k3j9x0q1z";
  iso := fun _ => "2023-11-14T22:13:20.000Z"
|}.

(** A client whose [connect] has succeeded against [env_up]. *)
Definition connected_client : World :=
  run_event env_up config EvConnect (new_client "payment-service").

(** The payment request the order service sends for order ORD-1: no
    headers, first delivery. *)
Definition payment_request : gmap string Scalar :=
  {[ "orderId" := SStr "ORD-1"; "userId" := SStr "user-7";
     "amount" := SNum 120; "method" := SStr "credit_card" ]}.

Definition first_delivery : Delivery :=
  {| content := JSON_stringify payment_request; messageId := SStr "order-service-1-aaa";
     headers := None; deliveryTag := 1; redelivered := false |}.

(** The same request carrying [x-retry-count: 3], as [handleRetry] or an
    operator would send it: a fresh message, not a redelivery. *)
Definition exhausted_delivery : Delivery :=
  {| content := JSON_stringify payment_request; messageId := SStr "payment-service-1-bbb";
     headers := Some {[ "x-retry-count" := 3 ]}; deliveryTag := 7; redelivered := false |}.

(** ** The audit service: [generateHash] ([src/unnamed/part_000]) *)

(** The 32-bit integer a bitwise operator works on. *)
Definition ToInt32 (x : Z) : Z := (x + 2 ^ 31) mod 2 ^ 32 - 2 ^ 31.

(** [x << n] and [x & y] on numbers. *)
Definition js_shl (x n : Z) : Z := ToInt32 (Z.shiftl (ToInt32 x) n).
Definition js_and (x y : Z) : Z := ToInt32 (Z.land (ToInt32 x) (ToInt32 y)).

(** One turn of the loop: [hash = ((hash << 5) - hash) + char; hash = hash & hash]. *)
Definition hash_step (hash char : Z) : Z :=
  let hash := (js_shl hash 5 - hash) + char in
  js_and hash hash.

(** [Number.prototype.toString(16)] on an integer. *)
Definition toString16 (n : Z) : string :=
  NilZero.string_of_int (Z.to_hex_int n).

(** [generateHash(data)], given the code units of [JSON.stringify(data)]. *)
Definition generateHash_number (str : list Z) : Z :=
  fold_left hash_step str 0.

Definition generateHash (str : list Z) : string :=
  toString16 (generateHash_number str).

(** [str.charCodeAt(i)] for a string of ASCII characters. *)
Definition char_codes (s : string) : list Z :=
  List.map (fun a => Z.of_N (Ascii.N_of_ascii a)) (String.list_ascii_of_string s).

(** The polynomial in 31 that the loop is meant to compute. *)
Definition poly31 (str : list Z) : Z :=
  fold_left (fun h c => 31 * h + c) str 0.

(** ** [validateConfig] ([src/shared/config.js]) *)

(** [!process.env[key]]: unset, or set to the empty string. *)
Definition env_missing (penv : gmap string string) (key : string) : bool :=
  match penv !! key with
  | Some v => String.eqb v ""
  | None => true
  end.

Definition isProduction (penv : gmap string string) : bool :=
  bool_decide (penv !! "NODE_ENV" = Some "production").

Definition required : list string := ["RABBITMQ_HOST"; "JWT_SECRET"].

(** [validateConfig()]: [inr true], or [inl] the message of the error it
    throws. *)
Definition validateConfig (penv : gmap string string) : string + bool :=
  let missing := List.filter (env_missing penv) required in
  if (0 <? Z.of_nat (length missing)) && isProduction penv then
    inl ("Missing required environment variables: " +:+ String.concat ", " missing)
  else inr true.

(** ** More environments for the examples *)

(** The broker is up, but the channel refuses acknowledgements. *)
Definition env_ack_fails : Env := {|
  amqp_connect := fun _ => Resolved 1%nat;
  create_channel := fun _ => Resolved 1%nat;
  settle := fun h => match h with
                     | OpAck _ _ :: _ => Rejected "Channel closed"
                     | _ => Resolved tt
                     end;
  queue_depth := fun _ => Resolved 0;
  consumer_tag := fun _ => Resolved "amq.ctag-1";
  accepted := fun _ => Resolved true;
  clock := fun _ => 1700000000000;
  random := fun _ => 1 # 2;
  base36 := fun _ => "k3j9x0q1z";
  iso := fun _ => "2023-11-14T22:13:20.000Z"
|}.

(** The broker is up, but closing the channel fails. *)
Definition env_close_fails : Env := {|
  amqp_connect := fun _ => Resolved 1%nat;
  create_channel := fun _ => Resolved 1%nat;
  settle := fun h => match h with
                     | OpChannelClose _ :: _ => Rejected "Channel closed"
                     | _ => Resolved tt
                     end;
  queue_depth := fun _ => Resolved 0;
  consumer_tag := fun _ => Resolved "amq.ctag-1";
  accepted := fun _ => Resolved true;
  clock := fun _ => 1700000000000;
  random := fun _ => 1 # 2;
  base36 := fun _ => "k3j9x0q1z";
  iso := fun _ => "2023-11-14T22:13:20.000Z"
|}.

(** The connection and the channel open, but [prefetch] is refused. *)
Definition env_prefetch_fails : Env := {|
  amqp_connect := fun _ => Resolved 1%nat;
  create_channel := fun _ => Resolved 1%nat;
  settle := fun h => match h with
                     | OpPrefetch _ _ :: _ => Rejected "Channel closed"
                     | _ => Resolved tt
                     end;
  queue_depth := fun _ => Resolved 0;
  consumer_tag := fun _ => Resolved "amq.ctag-1";
  accepted := fun _ => Resolved true;
  clock := fun _ => 1700000000000;
  random := fun _ => 1 # 2;
  base36 := fun _ => "k3j9x0q1z";
  iso := fun _ => "2023-11-14T22:13:20.000Z"
|}.

(** The gateway accepts, but every write on the channel throws. *)
Definition env_write_throws : Env := {|
  amqp_connect := fun _ => Resolved 1%nat;
  create_channel := fun _ => Resolved 1%nat;
  settle := fun _ => Resolved tt;
  queue_depth := fun _ => Resolved 0;
  consumer_tag := fun _ => Resolved "amq.ctag-1";
  accepted := fun _ => Rejected "Channel closed";
  clock := fun _ => 1700000000000;
  random := fun _ => 1 # 2;
  base36 := fun _ => "k3j9x0q1z";
  iso := fun _ => "2023-11-14T22:13:20.000Z"
|}.

(** The broker hands out a new consumer tag for every [consume]. *)
Definition env_tags : Env := {|
  amqp_connect := fun _ => Resolved 1%nat;
  create_channel := fun _ => Resolved 1%nat;
  settle := fun _ => Resolved tt;
  queue_depth := fun _ => Resolved 0;
  consumer_tag := fun h => Resolved ("amq.ctag-" +:+ pretty (Z.of_nat (length h)));
  accepted := fun _ => Resolved true;
  clock := fun _ => 1700000000000;
  random := fun _ => 1 # 2;
  base36 := fun _ => "k3j9x0q1z";
  iso := fun _ => "2023-11-14T22:13:20.000Z"
|}.

(** The operations a reconnection attempt may ask for. *)
Definition reconnect_op (op : Op) : Prop :=
  match op with
  | OpConnect _ _ | OpCreateChannel _ | OpPrefetch _ _ | OpSetTimeout _ _ => True
  | _ => False
  end.

(** The messages handed to the channel in a history, newest first: the
    exchange (empty for [sendToQueue]), the routing key or queue, the body. *)
Definition published (h : list Op) : list (string * string * Body) :=
  omap (fun op => match op with
                  | OpPublish _ exchange routingKey body _ => Some (exchange, routingKey, body)
                  | OpSendToQueue _ queue body _ => Some ("", queue, body)
                  | _ => None
                  end) h.

(** The queues a history asks to consume, newest first. *)
Definition consumed (h : list Op) : list string :=
  omap (fun op => match op with
                  | OpConsume _ queue _ => Some queue
                  | _ => None
                  end) h.

(** ** Invariants of computations *)

(** [keeps P s]: [P] holds wherever the call [s] stops, whether it has
    settled or is parked, provided [P] holds again whenever it is resumed. *)
Inductive keeps (P : World -> Prop) {A} : Step A -> Prop :=
| keeps_fin w r : P w -> keeps P (Fin w r)
| keeps_drain w k : P w -> (forall w', P w' -> keeps P (k w')) -> keeps P (Drain w k).

Definition preserves (P : World -> Prop) {A} (m : M A) : Prop :=
  forall w, P w -> keeps P (m w).

(** [P] does not look at the history. *)
Definition log_stable (P : World -> Prop) : Prop :=
  forall op w, P w -> P (log op w).

(** A world in which each reconnect timer of the runtime is the one held
    in [this.reconnectTimer]. *)
Definition timer_inv (w : World) : Prop :=
  timers w = match reconnectTimer w with Some t => [t] | None => [] end.

(** A world in which a consumer is registered only if there is a channel. *)
Definition registry_inv (w : World) : Prop :=
  channel w = None -> consumers w = ∅.

(* ================================================================== *)
(** * Properties *)

(** ** The monad *)

Lemma settle_all_bindS {A B} (s : Step A) (f : A -> M B) :
  settle_all (bindS s f) =
  match settle_all s with
  | (w, Returned a) => settle_all (f a w)
  | (w, Thrown e) => (w, Thrown e)
  end.
Proof.
  induction s as [w [a|e]|w k IH]; simpl; auto.
Qed.

Lemma settle_all_catchS {A} (s : Step A) (h : Err -> M A) :
  settle_all (catchS s h) =
  match settle_all s with
  | (w, Returned a) => (w, Returned a)
  | (w, Thrown e) => settle_all (h e w)
  end.
Proof.
  induction s as [w [a|e]|w k IH]; simpl; auto.
Qed.

Lemma keeps_bindS P {A B} (s : Step A) (f : A -> M B) :
  keeps P s -> (forall a, preserves P (f a)) -> keeps P (bindS s f).
Proof.
  intros Hs Hf. induction Hs as [w [a|e] Hw|w k Hw _ IH]; simpl.
  - by apply Hf.
  - by constructor.
  - constructor; auto.
Qed.

Lemma keeps_catchS P {A} (s : Step A) (h : Err -> M A) :
  keeps P s -> (forall e, preserves P (h e)) -> keeps P (catchS s h).
Proof.
  intros Hs Hh. induction Hs as [w [a|e] Hw|w k Hw _ IH]; simpl.
  - by constructor.
  - by apply Hh.
  - constructor; auto.
Qed.

Lemma keeps_settle_all P {A} (s : Step A) :
  keeps P s -> P (settle_all s).1.
Proof.
  induction 1 as [w r Hw|w k Hw _ IH]; simpl; auto.
Qed.

Lemma preserves_bind P {A B} (m : M A) (f : A -> M B) :
  preserves P m -> (forall a, preserves P (f a)) -> preserves P (bind m f).
Proof. intros Hm Hf w Hw. apply keeps_bindS; auto. Qed.

Lemma preserves_try_catch P {A} (m : M A) (h : Err -> M A) :
  preserves P m -> (forall e, preserves P (h e)) -> preserves P (try_catch m h).
Proof. intros Hm Hh w Hw. apply keeps_catchS; auto. Qed.

Lemma preserves_ret P {A} (a : A) : preserves P (ret a).
Proof. intros w Hw. by constructor. Qed.

Lemma preserves_throw P {A} (e : Err) : preserves P (@throw A e).
Proof. intros w Hw. by constructor. Qed.

Lemma preserves_get P {A} (f : World -> A) : preserves P (get f).
Proof. intros w Hw. by constructor. Qed.

Lemma preserves_await_drain P : preserves P await_drain.
Proof. intros w Hw. constructor; [done|]. intros w' Hw'. by constructor. Qed.

Lemma preserves_request P {A} op (answer : list Op -> Reply A) :
  log_stable P -> preserves P (request op answer).
Proof. intros HP w Hw. constructor. by apply HP. Qed.

Lemma preserves_observe P {A} op (answer : list Op -> A) :
  log_stable P -> preserves P (observe op answer).
Proof. intros HP w Hw. constructor. by apply HP. Qed.

Lemma preserves_modify P (f : World -> World) :
  (forall w, P w -> P (f w)) -> preserves P (modify f).
Proof. intros Hf w Hw. constructor. by apply Hf. Qed.

Lemma preserves_for_each P {A} (l : list A) (f : A -> M unit) :
  (forall x, preserves P (f x)) -> preserves P (for_each l f).
Proof.
  intros Hf. induction l as [|x l IH]; simpl.
  - apply preserves_ret.
  - apply preserves_bind; auto.
Qed.

Lemma preserves_ignore P {A} (m : M A) : preserves P m -> preserves P (ignore m).
Proof. intros Hm. apply preserves_bind; [done|]. intros _. apply preserves_ret. Qed.

(** The routine steps of a preservation proof. *)
Ltac preserve :=
  repeat match goal with
    | |- preserves _ (ret _) => apply preserves_ret
    | |- preserves _ (throw _) => apply preserves_throw
    | |- preserves _ (get _) => apply preserves_get
    | |- preserves _ await_drain => apply preserves_await_drain
    | |- preserves _ (request _ _) => apply preserves_request; [assumption]
    | |- preserves _ (observe _ _) => apply preserves_observe; [assumption]
    | |- preserves _ (ignore _) => apply preserves_ignore
    | |- preserves _ (for_each _ _) => apply preserves_for_each; intros ?
    | |- preserves _ (try_catch _ _) => apply preserves_try_catch; [|intros ?]
    | |- preserves _ (bind _ _) => apply preserves_bind; [|intros ?]
    | |- preserves _ (match ?x with _ => _ end) => destruct x
    end.

(** ** The precondition of the channel operations *)

(** C4: a publish, sendToQueue, consume or topology call (assertExchange,
    assertQueue, bindQueue) made while [this.channel] is null raises the
    "Channel not initialized" error at once: the call settles with that
    error in the very world it started in, so nothing has been asked of the
    broker (the history has not grown). *)
Theorem no_channel_fails_fast (env : Env) (w : World) :
  channel w = None ->
  message_of ChannelNotInitialized = "Channel not initialized" /\
  (forall exchange routingKey message options,
     publish env exchange routingKey message options w = Fin w (Thrown ChannelNotInitialized)) /\
  (forall exchange message hdrs options,
     publishWithHeaders env exchange message hdrs options w
     = Fin w (Thrown ChannelNotInitialized)) /\
  (forall queue message options,
     sendToQueue env queue message options w = Fin w (Thrown ChannelNotInitialized)) /\
  (forall queue options,
     consume env queue options w = Fin w (Thrown ChannelNotInitialized)) /\
  (forall exchange type options,
     assertExchange env exchange type options w = Fin w (Thrown ChannelNotInitialized)) /\
  (forall queue options,
     assertQueue env queue options w = Fin w (Thrown ChannelNotInitialized)) /\
  (forall queue exchange routingKey args,
     bindQueue env queue exchange routingKey args w = Fin w (Thrown ChannelNotInitialized)).
Proof.
  intros Hnone.
  repeat split; intros;
    unfold publishWithHeaders, publish, sendToQueue, consume, assertExchange,
      assertQueue, bindQueue, require_channel, bind, get; simpl;
    rewrite Hnone; reflexivity.
Qed.

Lemma no_channel_fails_fast_witness :
  publish env_up "orders.fanout" "" payment_request ∅ (new_client "order-service")
  = Fin (new_client "order-service") (Thrown ChannelNotInitialized) /\
  hist (new_client "order-service") = [].
Proof.
  split; [|reflexivity].
  apply (no_channel_fails_fast env_up (new_client "order-service")).
  reflexivity.
Defined.

(** ** [connect] *)

(** What [scheduleReconnect] leaves behind. *)
Lemma scheduleReconnect_run (cfg : Config) (w : World) :
  scheduleReconnect cfg w =
  match reconnectTimer w with
  | Some _ => Fin w (Returned tt)
  | None =>
      Fin (set_reconnectTimer (Some (next_timer w))
             (log (OpSetTimeout (next_timer w) (rabbitmq_reconnectInterval cfg))
                (set_timers (next_timer w :: timers w) (S (next_timer w)) w)))
          (Returned tt)
  end.
Proof.
  unfold scheduleReconnect, bind, get; simpl. by destruct (reconnectTimer w).
Qed.

(** C5: [connect] never raises and never stays parked: from every world and
    against every behaviour of the broker library it settles with a boolean.
    When the boolean is [true] the client holds the connection and the
    channel it was given, the prefetch limit 1 has been set on that channel
    and acknowledged, and [isConnected] is set. When it is [false] a
    reconnect timer is pending in [this.reconnectTimer]: the one that was
    already there, or a new one started with the configured delay. *)
Theorem connect_never_throws (env : Env) (cfg : Config) (w : World) :
  exists (w' : World) (ok : bool),
    connect env cfg w = Fin w' (Returned ok) /\
    if ok then
      exists conn ch,
        connection w' = Some conn /\ channel w' = Some ch /\ isConnected w' = true /\
        hist w' = OpPrefetch ch 1 :: OpCreateChannel conn
                    :: OpConnect (amqpUrl cfg) (rabbitmq_heartbeat cfg) :: hist w /\
        amqp_connect env (OpConnect (amqpUrl cfg) (rabbitmq_heartbeat cfg) :: hist w)
          = Resolved conn /\
        create_channel env (OpCreateChannel conn
                    :: OpConnect (amqpUrl cfg) (rabbitmq_heartbeat cfg) :: hist w)
          = Resolved ch /\
        settle env (hist w') = Resolved tt
    else
      is_Some (reconnectTimer w') /\
      match reconnectTimer w with
      | Some t => reconnectTimer w' = Some t /\ timers w' = timers w
      | None => reconnectTimer w' = Some (next_timer w) /\
                timers w' = next_timer w :: timers w /\
                head (hist w') = Some (OpSetTimeout (next_timer w) (rabbitmq_reconnectInterval cfg))
      end.
Proof.
  unfold connect, try_catch, bind, request, modify; simpl.
  set (h0 := OpConnect (amqpUrl cfg) (rabbitmq_heartbeat cfg) :: hist w).
  destruct (amqp_connect env h0) as [conn|m1] eqn:E1; simpl.
  - destruct (create_channel env (OpCreateChannel conn :: h0)) as [ch|m2] eqn:E2; simpl.
    + destruct (settle env (OpPrefetch ch 1 :: OpCreateChannel conn :: h0))
        as [[]|m3] eqn:E3; simpl.
      * eexists _, true. split; [reflexivity|].
        exists conn, ch. simpl. repeat split; auto.
      * rewrite scheduleReconnect_run; simpl.
        destruct (reconnectTimer w) as [t|] eqn:Ht; simpl;
          eexists _, false; (split; [reflexivity|]); simpl; rewrite ?Ht; eauto.
    + rewrite scheduleReconnect_run; simpl.
      destruct (reconnectTimer w) as [t|] eqn:Ht; simpl;
        eexists _, false; (split; [reflexivity|]); simpl; rewrite ?Ht; eauto.
  - rewrite scheduleReconnect_run; simpl.
    destruct (reconnectTimer w) as [t|] eqn:Ht; simpl;
      eexists _, false; (split; [reflexivity|]); simpl; rewrite ?Ht; eauto.
Qed.

(** ** Rejecting a delivery whose handler failed *)

Lemma noAck_of_default : noAck_of ∅ = false.
Proof. reflexivity. Qed.

Lemma noAck_of_false (options : gmap string JsVal) :
  options !! "noAck" = Some (VSc (SBool false)) -> noAck_of options = false.
Proof.
  intros H. unfold noAck_of, spread. rewrite lookup_union, H. reflexivity.
Qed.

(** The callback on a failing handler: one [nack], whose requeue flag is
    the negation of the redelivered flag. *)
Lemma on_message_handler_throws (env : Env)
    (handler : gmap string Scalar -> Delivery -> M unit) (options : gmap string JsVal)
    (msg : Delivery) (body : gmap string Scalar) (w w1 : World) (e : Err) (ch : nat) :
  noAck_of options = false ->
  content msg = Json body ->
  settle_all (handler body msg w) = (w1, Thrown e) ->
  channel w1 = Some ch ->
  (settle_all (on_message env handler options (Some msg) w)).1
    = log (OpNack ch (deliveryTag msg) false (negb (redelivered msg))) w1.
Proof.
  intros HnoAck Hbody Hthrows Hch.
  unfold on_message, try_catch. rewrite HnoAck, Hbody. simpl.
  rewrite settle_all_catchS. unfold bind at 1. rewrite settle_all_bindS. simpl.
  unfold bind at 1. rewrite settle_all_bindS, Hthrows. simpl.
  unfold channel_nack, bind, get; simpl. rewrite Hch. reflexivity.
Qed.

(** C3: when a delivery reaches a consumer registered with [noAck] false
    and the handler throws, the callback of [consume] issues exactly one
    [nack] for that delivery, not covering earlier ones, and its requeue
    flag is true if and only if the broker's redelivered flag is false. *)
Theorem handler_failure_nack (env : Env)
    (handler : gmap string Scalar -> Delivery -> M unit) (options : gmap string JsVal)
    (msg : Delivery) (body : gmap string Scalar) (w w1 : World) (e : Err) (ch : nat) :
  noAck_of options = false ->
  content msg = Json body ->
  settle_all (handler body msg w) = (w1, Thrown e) ->
  channel w1 = Some ch ->
  exists requeue : bool,
    (settle_all (on_message env handler options (Some msg) w)).1
      = log (OpNack ch (deliveryTag msg) false requeue) w1 /\
    (requeue = true <-> redelivered msg = false).
Proof.
  intros HnoAck Hbody Hthrows Hch.
  exists (negb (redelivered msg)). split.
  - by apply (on_message_handler_throws env handler options msg body w w1 e ch).
  - by destruct (redelivered msg).
Qed.

Lemma handler_failure_nack_witness :
  exists requeue : bool,
    (settle_all (on_message env_gateway_down (processPayment env_gateway_down config) ∅
                   (Some first_delivery) connected_client)).1
      = log (OpNack 1 1 false requeue) (log OpMathRandom connected_client) /\
    (requeue = true <-> redelivered first_delivery = false).
Proof.
  apply (handler_failure_nack env_gateway_down (processPayment env_gateway_down config) ∅
           first_delivery (filter (fun kv => kv.2 <> SUndef) payment_request)
           connected_client (log OpMathRandom connected_client)
           (AppErr "Payment gateway timeout") 1%nat).
  - reflexivity.
  - reflexivity.
  - vm_compute. reflexivity.
  - reflexivity.
Defined.

(** X9: when the body of a delivery cannot be parsed, the handler is never
    run: all the callback does is reject that delivery once, with requeue
    unless it had already been redelivered. *)
Lemma malformed_body_nack (env : Env)
    (handler : gmap string Scalar -> Delivery -> M unit) (options : gmap string JsVal)
    (msg : Delivery) (raw : string) (w : World) (ch : nat) :
  noAck_of options = false ->
  content msg = Garbage raw ->
  channel w = Some ch ->
  (settle_all (on_message env handler options (Some msg) w)).1
    = log (OpNack ch (deliveryTag msg) false (negb (redelivered msg))) w.
Proof.
  intros HnoAck Hbody Hch.
  unfold on_message, try_catch. rewrite HnoAck, Hbody. simpl.
  unfold channel_nack, bind, get; simpl. rewrite Hch. reflexivity.
Qed.

(** X10: when the handler returns and the channel takes the
    acknowledgement, the callback adds exactly one [ack] of that delivery to
    what the handler did, and returns normally. *)
Lemma handler_success_ack (env : Env)
    (handler : gmap string Scalar -> Delivery -> M unit) (options : gmap string JsVal)
    (msg : Delivery) (body : gmap string Scalar) (w w1 : World) (ch : nat) :
  noAck_of options = false ->
  content msg = Json body ->
  settle_all (handler body msg w) = (w1, Returned tt) ->
  channel w1 = Some ch ->
  settle env (OpAck ch (deliveryTag msg) :: hist w1) = Resolved tt ->
  settle_all (on_message env handler options (Some msg) w)
    = (log (OpAck ch (deliveryTag msg)) w1, Returned tt).
Proof.
  intros HnoAck Hbody Hok Hch Hack.
  unfold on_message, try_catch. rewrite HnoAck, Hbody. simpl.
  rewrite settle_all_catchS. unfold bind at 1. rewrite settle_all_bindS. simpl.
  unfold bind at 1. rewrite settle_all_bindS, Hok. simpl.
  unfold channel_ack, bind, get, request; simpl. rewrite Hch. simpl.
  rewrite Hack. reflexivity.
Qed.

(** ** Publishing *)

(** The message id [generateMessageId] computes in world [w]. *)
Lemma generateMessageId_run (env : Env) (w : World) :
  generateMessageId env w =
  Fin (log OpMathRandom (log OpDateNow w))
      (Returned (serviceName w +:+ "-" +:+ pretty (clock env (OpDateNow :: hist w)) +:+ "-"
                 +:+ base36 env (random env (OpMathRandom :: OpDateNow :: hist w)))).
Proof. reflexivity. Qed.

(** [publish] with a channel, step by step: two clock reads and one random
    number for the defaults, one write on the channel, and then the call
    settles or parks according to the flag the write returned. *)
Lemma publish_run (env : Env) (exchange routingKey : string)
    (message : gmap string Scalar) (options : gmap string JsVal) (w : World) (ch : nat) :
  channel w = Some ch ->
  forall (timestamp : Z) (id : string) (w1 : World),
  timestamp = clock env (OpDateNow :: hist w) ->
  generateMessageId env (log OpDateNow w) = Fin w1 (Returned id) ->
  let resolved := spread (publish_defaults timestamp id) options in
  let w2 := log (OpPublish ch exchange routingKey (JSON_stringify message) resolved) w1 in
  publish env exchange routingKey message options w =
  match accepted env (hist w2) with
  | Resolved true => Fin w2 (Returned (default (VSc SUndef) (resolved !! "messageId")))
  | Resolved false =>
      Drain w2 (fun w' => Fin w' (Returned (default (VSc SUndef) (resolved !! "messageId"))))
  | Rejected m => Fin w2 (Thrown (LibErr m))
  end.
Proof.
  intros Hch timestamp id w1 -> Hid resolved w2.
  rewrite generateMessageId_run in Hid. injection Hid as <- <-.
  unfold publish, require_channel, bind, get; simpl. rewrite Hch; simpl.
  subst w2 resolved. simpl.
  destruct (accepted env _) as [[]|m]; reflexivity.
Qed.

Lemma sendToQueue_run (env : Env) (queue : string)
    (message : gmap string Scalar) (options : gmap string JsVal) (w : World) (ch : nat) :
  channel w = Some ch ->
  forall (timestamp : Z) (id : string) (w1 : World),
  timestamp = clock env (OpDateNow :: hist w) ->
  generateMessageId env (log OpDateNow w) = Fin w1 (Returned id) ->
  let resolved := spread (publish_defaults timestamp id) options in
  let w2 := log (OpSendToQueue ch queue (JSON_stringify message) resolved) w1 in
  sendToQueue env queue message options w =
  match accepted env (hist w2) with
  | Resolved true => Fin w2 (Returned (default (VSc SUndef) (resolved !! "messageId")))
  | Resolved false =>
      Drain w2 (fun w' => Fin w' (Returned (default (VSc SUndef) (resolved !! "messageId"))))
  | Rejected m => Fin w2 (Thrown (LibErr m))
  end.
Proof.
  intros Hch timestamp id w1 -> Hid resolved w2.
  rewrite generateMessageId_run in Hid. injection Hid as <- <-.
  unfold sendToQueue, require_channel, bind, get; simpl. rewrite Hch; simpl.
  subst w2 resolved. simpl.
  destruct (accepted env _) as [[]|m]; reflexivity.
Qed.

(** A key of the defaults is taken from [options] when it is there. *)
Lemma spread_lookup (defaults options : gmap string JsVal) (k : string) (d : JsVal) :
  defaults !! k = Some d ->
  spread defaults options !! k = Some (default d (options !! k)).
Proof.
  intros Hd. unfold spread. rewrite lookup_union, Hd.
  by destruct (options !! k).
Qed.

Lemma spread_lookup_other (defaults options : gmap string JsVal) (k : string) :
  defaults !! k = None -> spread defaults options !! k = options !! k.
Proof.
  intros Hd. unfold spread. rewrite lookup_union, Hd.
  by destruct (options !! k).
Qed.

(** C7: a [publish] call on a client that has a channel hands the
    serialized message to that channel together with the resolved options:
    [persistent] true, [contentType] application/json, [timestamp] the
    clock read at the call, and [messageId] the id that [generateMessageId]
    produced during this call, each replaced by the field of [options] when
    [options] has that field; every other field of [options] is passed as
    it is. Whenever the channel write returns (accepted or not) the call,
    once settled, returns the resolved [messageId]. *)
Theorem publish_attaches_defaults (env : Env) (exchange routingKey : string)
    (message : gmap string Scalar) (options : gmap string JsVal) (w : World) (ch : nat) :
  channel w = Some ch ->
  exists (timestamp : Z) (id : string) (w1 : World) (resolved : gmap string JsVal),
    timestamp = clock env (OpDateNow :: hist w) /\
    generateMessageId env (log OpDateNow w) = Fin w1 (Returned id) /\
    world_of (publish env exchange routingKey message options w)
      = log (OpPublish ch exchange routingKey (JSON_stringify message) resolved) w1 /\
    resolved !! "persistent" = Some (default (VSc (SBool true)) (options !! "persistent")) /\
    resolved !! "contentType"
      = Some (default (VSc (SStr "application/json")) (options !! "contentType")) /\
    resolved !! "timestamp" = Some (default (VSc (SNum timestamp)) (options !! "timestamp")) /\
    resolved !! "messageId" = Some (default (VSc (SStr id)) (options !! "messageId")) /\
    (forall k, k ∉ ["persistent"; "contentType"; "timestamp"; "messageId"] ->
               resolved !! k = options !! k) /\
    (forall flag : bool,
       accepted env (hist (world_of (publish env exchange routingKey message options w)))
         = Resolved flag ->
       (settle_all (publish env exchange routingKey message options w)).2
         = Returned (default (VSc (SStr id)) (options !! "messageId"))).
Proof.
  intros Hch.
  pose proof (generateMessageId_run env (log OpDateNow w)) as Hid.
  pose proof (publish_run env exchange routingKey message options w ch Hch
                _ _ _ eq_refl Hid) as Hrun.
  simpl in Hrun.
  set (timestamp := clock env (OpDateNow :: hist w)) in *.
  set (id := (serviceName w +:+ _)%string) in *.
  set (resolved := spread (publish_defaults timestamp id) options) in *.
  assert (Hmid : resolved !! "messageId"
                 = Some (default (VSc (SStr id)) (options !! "messageId"))).
  { apply spread_lookup. reflexivity. }
  exists timestamp, id, (log OpMathRandom (log OpDateNow (log OpDateNow w))), resolved.
  split; [reflexivity|]. split; [exact Hid|].
  split; [|split; [|split; [|split; [|split; [|split]]]]].
  - rewrite Hrun. by destruct (accepted env _) as [[]|m].
  - apply spread_lookup. reflexivity.
  - apply spread_lookup. reflexivity.
  - apply spread_lookup. reflexivity.
  - exact Hmid.
  - intros k Hk. apply spread_lookup_other.
    unfold publish_defaults.
    rewrite !not_elem_of_cons in Hk. destruct Hk as (H1 & H2 & H3 & H4 & _).
    rewrite !lookup_insert_ne by congruence.
    apply lookup_singleton_ne. congruence.
  - intros flag. rewrite Hrun.
    destruct (accepted env _) as [[]|m] eqn:Hacc; simpl; rewrite ?Hacc;
      intros Hflag; try discriminate; by rewrite Hmid.
Qed.

Lemma publish_attaches_defaults_witness :
  channel connected_client = Some 1%nat /\
  exists id : string,
    (settle_all (publish env_up "orders.fanout" "" payment_request ∅ connected_client)).2
    = Returned (VSc (SStr id)).
Proof.
  assert (Hch : channel connected_client = Some 1%nat) by reflexivity.
  split; [exact Hch|].
  destruct (publish_attaches_defaults env_up "orders.fanout" "" payment_request ∅
              connected_client 1%nat Hch)
    as (timestamp & id & w1 & resolved & _ & _ & _ & _ & _ & _ & _ & _ & Hret).
  exists id. apply (Hret true). reflexivity.
Defined.

(** ** Backpressure *)

(** C8: when the channel write of a [publish] or [sendToQueue] call returns
    false (buffer full), the message has been handed to the channel (it is
    the newest entry of the history), and the call is not settled: it is
    parked, no signal of the channel other than [drain] changes that, and on
    [drain] it returns the message id without writing the message again or
    touching the state. *)
Theorem backpressure_waits_for_drain (env : Env) (w : World) (ch : nat) :
  channel w = Some ch ->
  (forall exchange routingKey message options,
     let call := publish env exchange routingKey message options w in
     accepted env (hist (world_of call)) = Resolved false ->
     settled call = None /\
     (exists resolved,
        head (hist (world_of call))
        = Some (OpPublish ch exchange routingKey (JSON_stringify message) resolved)) /\
     (forall sg w', sg <> SigDrain ->
        on_signal sg w' call = call /\ settled (on_signal sg w' call) = None) /\
     (exists id, forall w', on_signal SigDrain w' call = Fin w' (Returned id))) /\
  (forall queue message options,
     let call := sendToQueue env queue message options w in
     accepted env (hist (world_of call)) = Resolved false ->
     settled call = None /\
     (exists resolved,
        head (hist (world_of call))
        = Some (OpSendToQueue ch queue (JSON_stringify message) resolved)) /\
     (forall sg w', sg <> SigDrain ->
        on_signal sg w' call = call /\ settled (on_signal sg w' call) = None) /\
     (exists id, forall w', on_signal SigDrain w' call = Fin w' (Returned id))).
Proof.
  intros Hch. split.
  - intros exchange routingKey message options call.
    pose proof (publish_run env exchange routingKey message options w ch Hch
                  _ _ _ eq_refl (generateMessageId_run env (log OpDateNow w))) as Hrun.
    simpl in Hrun. subst call. rewrite Hrun. clear Hrun.
    match goal with
    | |- context [match accepted env ?h with _ => _ end] =>
        destruct (accepted env h) as [[]|m] eqn:Hacc
    end; simpl; rewrite Hacc; intros Hfull; try discriminate.
    repeat split; eauto.
    + by destruct sg.
    + by destruct sg.
  - intros queue message options call.
    pose proof (sendToQueue_run env queue message options w ch Hch
                  _ _ _ eq_refl (generateMessageId_run env (log OpDateNow w))) as Hrun.
    simpl in Hrun. subst call. rewrite Hrun. clear Hrun.
    match goal with
    | |- context [match accepted env ?h with _ => _ end] =>
        destruct (accepted env h) as [[]|m] eqn:Hacc
    end; simpl; rewrite Hacc; intros Hfull; try discriminate.
    repeat split; eauto.
    + by destruct sg.
    + by destruct sg.
Qed.

Lemma backpressure_waits_for_drain_witness :
  channel connected_client = Some 1%nat /\
  settled (publish env_full "orders.fanout" "" payment_request ∅ connected_client) = None /\
  settled (sendToQueue env_full "payments.process" payment_request ∅ connected_client) = None.
Proof.
  assert (Hch : channel connected_client = Some 1%nat) by reflexivity.
  destruct (backpressure_waits_for_drain env_full connected_client 1%nat Hch) as [Hp Hs].
  split; [exact Hch|]. split.
  - apply (Hp "orders.fanout" "" payment_request ∅). reflexivity.
  - apply (Hs "payments.process" payment_request ∅). reflexivity.
Defined.

(** ** What every event preserves *)

Section Preservation.
Variable env : Env.
Variable cfg : Config.
Variable P : World -> Prop.

Hypothesis P_log : log_stable P.
Hypothesis P_connection : forall c w, P w -> P (set_connection (Some c) w).
Hypothesis P_channel : forall c w, P w -> P (set_channel (Some c) w).
Hypothesis P_isConnected : forall b w, P w -> P (set_isConnected b w).
Hypothesis P_payments : forall m w, P w -> P (set_payments m w).
Hypothesis P_failedPayments : forall m w, P w -> P (set_failedPayments m w).
Hypothesis P_scheduleReconnect : preserves P (scheduleReconnect cfg).
Hypothesis P_unregister : forall q w, P w -> P (set_consumers (delete q (consumers w)) w).
Hypothesis P_register :
  forall q tag w, P w -> is_Some (channel w) -> P (set_consumers (<[q := tag]> (consumers w)) w).

Local Ltac step_modify :=
  apply preserves_modify; intros; eauto.

Lemma connect_preserves : preserves P (connect env cfg).
Proof using P_log P_connection P_channel P_isConnected P_scheduleReconnect.
  unfold connect. preserve; try step_modify. exact P_scheduleReconnect.
Qed.

Lemma require_channel_preserves : preserves P require_channel.
Proof using Type. unfold require_channel. preserve. Qed.

Lemma generateMessageId_preserves : preserves P (generateMessageId env).
Proof using P_log. unfold generateMessageId. preserve. Qed.

Lemma publish_preserves exchange routingKey message options :
  preserves P (publish env exchange routingKey message options).
Proof using P_log.
  unfold publish. preserve;
    auto using require_channel_preserves, generateMessageId_preserves.
Qed.

Lemma sendToQueue_preserves queue message options :
  preserves P (sendToQueue env queue message options).
Proof using P_log.
  unfold sendToQueue. preserve;
    auto using require_channel_preserves, generateMessageId_preserves.
Qed.

Lemma cancelConsumer_preserves queue : preserves P (cancelConsumer env queue).
Proof using P_log P_unregister.
  unfold cancelConsumer. preserve; try step_modify.
Qed.

Lemma consume_preserves queue options : preserves P (consume env queue options).
Proof using P_log P_register.
  intros w Hw. unfold consume, require_channel, bind, get, request, modify; simpl.
  destruct (channel w) as [ch|] eqn:Hch; simpl; [|by constructor].
  destruct (consumer_tag env _) as [tag|m]; simpl; constructor.
  - apply (P_register queue tag (log _ w)); [by apply P_log|].
    simpl. rewrite Hch. eauto.
  - by apply P_log.
Qed.

Lemma now_iso_preserves : preserves P (now_iso env).
Proof using P_log. unfold now_iso. preserve. Qed.

Lemma processPayment_preserves body msg : preserves P (processPayment env cfg body msg).
Proof using P_log P_payments P_failedPayments.
  unfold processPayment, simulatePaymentGateway. preserve;
    auto using publish_preserves, now_iso_preserves; step_modify.
Qed.

Lemma handleRetry_preserves body msg : preserves P (handleRetry env cfg body msg).
Proof using P_log.
  unfold handleRetry. preserve; auto using sendToQueue_preserves.
Qed.

Lemma handleDeadLetter_preserves body msg : preserves P (handleDeadLetter env body msg).
Proof using P_log P_failedPayments.
  unfold handleDeadLetter. preserve; auto using now_iso_preserves; step_modify.
Qed.

Lemma on_message_preserves handler options delivery :
  (forall body msg, preserves P (handler body msg)) ->
  preserves P (on_message env handler options delivery).
Proof using P_log.
  intros Hh. unfold on_message, channel_ack, channel_nack, JSON_parse. preserve; auto.
Qed.

Lemma manual_retry_preserves orderId : preserves P (manual_retry env cfg orderId).
Proof using P_log P_failedPayments.
  unfold manual_retry. preserve; auto using sendToQueue_preserves; step_modify.
Qed.

Lemma close_preserves : preserves P clear_reconnect_timer -> preserves P (close env).
Proof using P_log P_isConnected P_unregister.
  intros Hclear. unfold close. preserve;
    auto using cancelConsumer_preserves; step_modify.
Qed.

Lemma fire_timer_preserves t :
  (forall w, P w -> t ∈ timers w ->
     P (set_reconnectTimer None
          (set_timers (List.filter (fun x => negb (Nat.eqb x t)) (timers w)) (next_timer w) w))) ->
  preserves P (fire_timer env cfg t).
Proof using P_log P_connection P_channel P_isConnected P_scheduleReconnect.
  intros Hfire w Hw. unfold fire_timer. case_bool_decide as Hin; [|by constructor].
  unfold reconnect_callback, bind at 1, modify; simpl.
  apply keeps_bindS; [|intros _; apply preserves_ret].
  apply connect_preserves. by apply Hfire.
Qed.

(** Every event keeps [P], given what [close] and the timer do to it. *)
Lemma handle_preserves (ev : Event) :
  (ev = EvClose -> preserves P clear_reconnect_timer) ->
  (forall t, ev = EvTimer t ->
     forall w, P w -> t ∈ timers w ->
       P (set_reconnectTimer None
            (set_timers (List.filter (fun x => negb (Nat.eqb x t)) (timers w)) (next_timer w) w))) ->
  preserves P (handle env cfg ev).
Proof using All.
  intros Hclose Htimer.
  destruct ev; simpl; try apply preserves_ignore.
  - apply connect_preserves.
  - apply close_preserves. by apply Hclose.
  - unfold assertExchange. preserve; auto using require_channel_preserves.
  - unfold assertQueue. preserve; auto using require_channel_preserves.
  - unfold bindQueue. preserve; auto using require_channel_preserves.
  - apply publish_preserves.
  - apply publish_preserves.
  - apply sendToQueue_preserves.
  - apply consume_preserves.
  - apply cancelConsumer_preserves.
  - unfold on_connection_error. step_modify.
  - unfold on_connection_close. preserve; [step_modify|exact P_scheduleReconnect].
  - apply preserves_ret.
  - apply preserves_ret.
  - apply fire_timer_preserves. by apply Htimer.
  - unfold callback_of.
    destruct (List.find _ _) as [[q h]|]; [|apply preserves_ret].
    apply on_message_preserves. intros body msg.
    destruct h; simpl;
      auto using processPayment_preserves, handleDeadLetter_preserves, preserves_ret.
  - apply manual_retry_preserves.
Qed.

Lemma run_event_preserves (ev : Event) (w : World) :
  (ev = EvClose -> preserves P clear_reconnect_timer) ->
  (forall t, ev = EvTimer t ->
     forall w, P w -> t ∈ timers w ->
       P (set_reconnectTimer None
            (set_timers (List.filter (fun x => negb (Nat.eqb x t)) (timers w)) (next_timer w) w))) ->
  P w -> P (run_event env cfg ev w).
Proof using All.
  intros Hclose Htimer Hw. unfold run_event.
  apply keeps_settle_all. by apply handle_preserves.
Qed.

End Preservation.

(** ** The reconnect timer *)

Lemma scheduleReconnect_timer_inv (cfg : Config) : preserves timer_inv (scheduleReconnect cfg).
Proof.
  intros w Hw. rewrite scheduleReconnect_run. unfold timer_inv in *.
  destruct (reconnectTimer w) as [t|] eqn:Ht; constructor; simpl.
  - by rewrite Ht.
  - by rewrite Hw.
Qed.

Lemma clear_reconnect_timer_run (w : World) :
  clear_reconnect_timer w =
  match reconnectTimer w with
  | Some t =>
      Fin (set_reconnectTimer None
             (log (OpClearTimeout t)
                (set_timers (List.filter (fun x => negb (Nat.eqb x t)) (timers w))
                   (next_timer w) w)))
          (Returned tt)
  | None => Fin w (Returned tt)
  end.
Proof.
  unfold clear_reconnect_timer, bind, get; simpl. by destruct (reconnectTimer w).
Qed.

Lemma clear_reconnect_timer_inv : preserves timer_inv clear_reconnect_timer.
Proof.
  intros w Hw. rewrite clear_reconnect_timer_run. unfold timer_inv in *.
  destruct (reconnectTimer w) as [t|] eqn:Ht; constructor; simpl.
  - rewrite Hw. simpl. by rewrite Nat.eqb_refl.
  - by rewrite Ht.
Qed.

Lemma timer_inv_pending (w : World) (t : nat) :
  timer_inv w -> t ∈ timers w -> reconnectTimer w = Some t /\ timers w = [t].
Proof.
  unfold timer_inv. intros Hw Hin.
  destruct (reconnectTimer w) as [t'|]; rewrite Hw in Hin.
  - apply list_elem_of_singleton in Hin as ->. by rewrite Hw.
  - by apply not_elem_of_nil in Hin.
Qed.

Lemma timer_inv_run_event (env : Env) (cfg : Config) (ev : Event) (w : World) :
  timer_inv w -> timer_inv (run_event env cfg ev w).
Proof.
  intros Hw. apply (run_event_preserves env cfg timer_inv); try done.
  - by intros op w'.
  - apply scheduleReconnect_timer_inv.
  - intros _. apply clear_reconnect_timer_inv.
  - intros t _ w' Hw' Hin. destruct (timer_inv_pending _ _ Hw' Hin) as [_ Ht].
    unfold timer_inv; simpl. rewrite Ht. simpl. by rewrite Nat.eqb_refl.
Qed.

Lemma timer_inv_run_events (env : Env) (cfg : Config) (evs : list Event) (w : World) :
  timer_inv w -> timer_inv (run_events env cfg evs w).
Proof.
  revert w. induction evs as [|ev evs IH]; intros w Hw; simpl; [done|].
  apply IH. by apply timer_inv_run_event.
Qed.

(** While the slot holds timer [t], only [close] and the firing of [t]
    release it. *)
Lemma slot_held_run_event (env : Env) (cfg : Config) (ev : Event) (w : World) (t : nat) :
  timer_inv w -> reconnectTimer w = Some t ->
  ev <> EvClose -> ev <> EvTimer t ->
  reconnectTimer (run_event env cfg ev w) = Some t.
Proof.
  intros Hinv Hslot Hclose Hfire.
  assert (H : (fun w => timer_inv w /\ reconnectTimer w = Some t)
                (run_event env cfg ev w)); [|by destruct H].
  apply (run_event_preserves env cfg
           (fun w => timer_inv w /\ reconnectTimer w = Some t)).
  - by intros op w' [? ?].
  - by intros c w' [? ?].
  - by intros c w' [? ?].
  - by intros c w' [? ?].
  - by intros c w' [? ?].
  - by intros c w' [? ?].
  - intros w' [Hw' Ht']. rewrite scheduleReconnect_run, Ht'. by constructor.
  - by intros q w' [? ?].
  - by intros q tag w' [? ?] _.
  - done.
  - intros t' -> w' [Hw' Ht'] Hin.
    destruct (timer_inv_pending _ _ Hw' Hin) as [Hslot' _]. congruence.
  - done.
Qed.

(** C6: in every world a client reaches from its construction, the timers
    pending in the runtime are exactly the one held in
    [this.reconnectTimer], so there is at most one; asking to schedule a
    reconnection while the slot holds a timer changes nothing and starts no
    timer; and the slot keeps holding that timer across every event other
    than [close()] and the firing of that very timer. *)
Theorem one_reconnect_timer (env : Env) (cfg : Config) (name : string) (evs : list Event) :
  let w := run_events env cfg evs (new_client name) in
  timer_inv w /\
  (length (timers w) <= 1)%nat /\
  (forall t, reconnectTimer w = Some t -> scheduleReconnect cfg w = Fin w (Returned tt)) /\
  (forall t ev, reconnectTimer w = Some t -> ev <> EvClose -> ev <> EvTimer t ->
     reconnectTimer (run_event env cfg ev w) = Some t) /\
  (forall t, reconnectTimer w = Some t ->
     reconnectTimer (world_of (clear_reconnect_timer w)) = None /\
     timers (world_of (clear_reconnect_timer w)) = []).
Proof.
  intros w.
  assert (Hinv : timer_inv w) by (apply timer_inv_run_events; reflexivity).
  split; [exact Hinv|]. split; [|split; [|split]].
  - rewrite Hinv. destruct (reconnectTimer w); simpl; lia.
  - intros t Ht. by rewrite scheduleReconnect_run, Ht.
  - intros t ev Ht Hclose Hfire. by apply slot_held_run_event.
  - intros t Ht. rewrite clear_reconnect_timer_run, Ht. simpl.
    rewrite Hinv, Ht. simpl. by rewrite Nat.eqb_refl.
Qed.

Lemma one_reconnect_timer_witness :
  let w := run_events env_down config [EvConnect; EvConnectionClose] (new_client "payment-service") in
  reconnectTimer w = Some 0%nat /\ timers w = [0%nat] /\
  scheduleReconnect config w = Fin w (Returned tt) /\
  reconnectTimer (run_event env_down config EvConnectionError w) = Some 0%nat.
Proof.
  intros w.
  assert (Ht : reconnectTimer w = Some 0%nat) by reflexivity.
  destruct (one_reconnect_timer env_down config "payment-service"
              [EvConnect; EvConnectionClose]) as (_ & _ & Hnoop & Hheld & _).
  split; [exact Ht|]. split; [reflexivity|]. split.
  - apply (Hnoop 0%nat Ht).
  - apply (Hheld 0%nat EvConnectionError Ht); discriminate.
Defined.

(** ** The channel field *)

Lemma channel_kept_run_event (env : Env) (cfg : Config) (ev : Event) (w : World) :
  is_Some (channel w) -> is_Some (channel (run_event env cfg ev w)).
Proof.
  intros Hw.
  apply (run_event_preserves env cfg (fun w => is_Some (channel w))); try done.
  - by intros op w'.
  - intros w' Hw'. rewrite scheduleReconnect_run.
    destruct (reconnectTimer w'); by constructor.
  - intros _ w' Hw'. rewrite clear_reconnect_timer_run.
    destruct (reconnectTimer w'); by constructor.
Qed.

Lemma channel_kept_run_events (env : Env) (cfg : Config) (evs : list Event) (w : World) :
  is_Some (channel w) -> is_Some (channel (run_events env cfg evs w)).
Proof.
  revert w. induction evs as [|ev evs IH]; intros w Hw; simpl; [done|].
  apply IH. by apply channel_kept_run_event.
Qed.

(** A [connect] that returns true has stored a channel. *)
Lemma connect_true_channel (env : Env) (cfg : Config) (w0 w : World) :
  connect env cfg w0 = Fin w (Returned true) -> is_Some (channel w).
Proof.
  unfold connect, try_catch, bind, request, modify; simpl.
  destruct (amqp_connect env _) as [conn|m1]; simpl.
  - destruct (create_channel env _) as [ch|m2]; simpl.
    + destruct (settle env _) as [[]|m3]; simpl.
      * intros [= <-]. simpl. eauto.
      * rewrite scheduleReconnect_run. by destruct (reconnectTimer _).
    + rewrite scheduleReconnect_run. by destruct (reconnectTimer _).
  - rewrite scheduleReconnect_run. by destruct (reconnectTimer _).
Qed.

(** With a channel, no operation ends in the precondition error. *)
Lemma channel_operations_pass_guard (env : Env) (w : World) :
  is_Some (channel w) ->
  (forall exchange routingKey message options,
     (settle_all (publish env exchange routingKey message options w)).2
     <> Thrown ChannelNotInitialized) /\
  (forall exchange message hdrs options,
     (settle_all (publishWithHeaders env exchange message hdrs options w)).2
     <> Thrown ChannelNotInitialized) /\
  (forall queue message options,
     (settle_all (sendToQueue env queue message options w)).2
     <> Thrown ChannelNotInitialized) /\
  (forall queue options,
     (settle_all (consume env queue options w)).2 <> Thrown ChannelNotInitialized) /\
  (forall exchange type options,
     (settle_all (assertExchange env exchange type options w)).2
     <> Thrown ChannelNotInitialized) /\
  (forall queue options,
     (settle_all (assertQueue env queue options w)).2 <> Thrown ChannelNotInitialized) /\
  (forall queue exchange routingKey args,
     (settle_all (bindQueue env queue exchange routingKey args w)).2
     <> Thrown ChannelNotInitialized).
Proof.
  intros [ch Hch].
  assert (Hpub : forall exchange routingKey message options,
     (settle_all (publish env exchange routingKey message options w)).2
     <> Thrown ChannelNotInitialized).
  { intros. erewrite publish_run; [|exact Hch|reflexivity|apply generateMessageId_run].
    by destruct (accepted env _) as [[]|m]. }
  split; [exact Hpub|]. split; [intros; apply Hpub|]. split; [|repeat split].
  - intros. erewrite sendToQueue_run; [|exact Hch|reflexivity|apply generateMessageId_run].
    by destruct (accepted env _) as [[]|m].
  - intros. unfold consume, require_channel, bind, get, request; simpl. rewrite Hch; simpl.
    by destruct (consumer_tag env _).
  - intros. unfold assertExchange, require_channel, bind, get, request; simpl.
    rewrite Hch; simpl. by destruct (settle env _).
  - intros. unfold assertQueue, require_channel, bind, get, request; simpl.
    rewrite Hch; simpl. by destruct (queue_depth env _).
  - intros. unfold bindQueue, require_channel, bind, get, request; simpl.
    rewrite Hch; simpl. by destruct (settle env _).
Qed.

(** C10: once a [connect] call has returned true, [this.channel] holds a
    channel in every later world of the client, whatever events follow
    (connection errors and closes, failed reconnections, [close()] itself),
    so no later publish, sendToQueue, consume or topology call ends in the
    "Channel not initialized" error; this includes the worlds in which
    [isHealthy()] answers false. *)
Theorem channel_never_cleared (env : Env) (cfg : Config) (w0 w : World) (evs : list Event) :
  connect env cfg w0 = Fin w (Returned true) ->
  let w' := run_events env cfg evs w in
  is_Some (channel w') /\
  (isHealthy w' = false -> isConnected w' = false) /\
  (forall exchange routingKey message options,
     (settle_all (publish env exchange routingKey message options w')).2
     <> Thrown ChannelNotInitialized) /\
  (forall exchange message hdrs options,
     (settle_all (publishWithHeaders env exchange message hdrs options w')).2
     <> Thrown ChannelNotInitialized) /\
  (forall queue message options,
     (settle_all (sendToQueue env queue message options w')).2
     <> Thrown ChannelNotInitialized) /\
  (forall queue options,
     (settle_all (consume env queue options w')).2 <> Thrown ChannelNotInitialized) /\
  (forall exchange type options,
     (settle_all (assertExchange env exchange type options w')).2
     <> Thrown ChannelNotInitialized) /\
  (forall queue options,
     (settle_all (assertQueue env queue options w')).2 <> Thrown ChannelNotInitialized) /\
  (forall queue exchange routingKey args,
     (settle_all (bindQueue env queue exchange routingKey args w')).2
     <> Thrown ChannelNotInitialized).
Proof.
  intros Hconnect w'.
  assert (Hw : is_Some (channel w)) by (by eapply connect_true_channel).
  assert (Hw' : is_Some (channel w')) by by apply channel_kept_run_events.
  split; [exact Hw'|]. split.
  - unfold isHealthy. destruct Hw' as [ch Hch]. rewrite Hch.
    rewrite bool_decide_eq_true_2 by done. by rewrite andb_true_r.
  - by apply channel_operations_pass_guard.
Qed.

Lemma channel_never_cleared_witness :
  let w := run_events env_up config [EvConnectionError; EvConnectionClose] connected_client in
  isHealthy w = false /\
  (settle_all (publish env_up "orders.fanout" "" payment_request ∅ w)).2
  <> Thrown ChannelNotInitialized.
Proof.
  intros w. split; [reflexivity|].
  assert (Hconnect : connect env_up config (new_client "payment-service")
                     = Fin connected_client (Returned true)) by reflexivity.
  destruct (channel_never_cleared env_up config (new_client "payment-service")
              connected_client [EvConnectionError; EvConnectionClose] Hconnect)
    as (_ & _ & Hpub & _).
  apply Hpub.
Defined.

(** ** Cancelling a consumer *)

Lemma registry_inv_run_event (env : Env) (cfg : Config) (ev : Event) (w : World) :
  registry_inv w -> registry_inv (run_event env cfg ev w).
Proof.
  intros Hw. apply (run_event_preserves env cfg registry_inv); try done.
  - by intros op w'.
  - intros w' Hw'. rewrite scheduleReconnect_run.
    destruct (reconnectTimer w'); by constructor.
  - intros q w' Hw' Hnone. simpl in *. rewrite (Hw' Hnone). apply delete_empty.
  - intros q tag w' _ [ch Hch] Hnone. simpl in *. congruence.
  - intros _ w' Hw'. rewrite clear_reconnect_timer_run.
    destruct (reconnectTimer w'); by constructor.
Qed.

Lemma registry_inv_run_events (env : Env) (cfg : Config) (evs : list Event) (w : World) :
  registry_inv w -> registry_inv (run_events env cfg evs w).
Proof.
  revert w. induction evs as [|ev evs IH]; intros w Hw; simpl; [done|].
  apply IH. by apply registry_inv_run_event.
Qed.

(** C9: in every world a client reaches, [cancelConsumer(queue)] on a
    queue with a registration (a consumer tag, which the broker never leaves
    empty) finds a channel, asks it to cancel that consumer tag and, once
    the broker has confirmed, returns with the queue removed from the
    registry and every other registration untouched; on a queue without a
    registration it returns at once, raising nothing, asking nothing of the
    broker and changing nothing. *)
Theorem cancelConsumer_removes_registration (env : Env) (cfg : Config) (name : string)
    (evs : list Event) (queue : string) :
  let w := run_events env cfg evs (new_client name) in
  (forall tag, consumers w !! queue = Some tag -> tag <> "" ->
     exists ch, channel w = Some ch /\
       head (hist (world_of (cancelConsumer env queue w))) = Some (OpCancel ch tag) /\
       (settle env (OpCancel ch tag :: hist w) = Resolved tt ->
          exists w', cancelConsumer env queue w = Fin w' (Returned tt) /\
            consumers w' = delete queue (consumers w) /\
            consumers w' !! queue = None /\
            hist w' = OpCancel ch tag :: hist w)) /\
  (consumers w !! queue = None -> cancelConsumer env queue w = Fin w (Returned tt)).
Proof.
  intros w.
  assert (Hinv : registry_inv w) by (by apply registry_inv_run_events).
  split.
  - intros tag Hreg Htag.
    destruct (channel w) as [ch|] eqn:Hch.
    2: { rewrite (Hinv Hch), lookup_empty in Hreg. discriminate. }
    exists ch. split; [reflexivity|].
    assert (Hne : negb (String.eqb tag "") = true).
    { apply negb_true_iff. by apply String.eqb_neq. }
    unfold cancelConsumer, bind, get, request, modify; simpl.
    rewrite Hreg, Hch, Hne. simpl. split.
    + by destruct (settle env _) as [[]|m].
    + intros ->. simpl. eexists. split; [reflexivity|]. simpl.
      split; [reflexivity|]. split; [apply lookup_delete_eq|reflexivity].
  - intros Hnone. unfold cancelConsumer, bind, get; simpl. by rewrite Hnone.
Qed.

Lemma cancelConsumer_removes_registration_witness :
  let w := run_events env_up config [EvConnect; EvConsume "payments.process" ∅]
             (new_client "payment-service") in
  consumers w !! "payments.process" = Some "amq.ctag-1" /\
  (exists w', cancelConsumer env_up "payments.process" w = Fin w' (Returned tt) /\
              consumers w' !! "payments.process" = None) /\
  consumers w !! "payments.dead" = None /\
  cancelConsumer env_up "payments.dead" w = Fin w (Returned tt).
Proof.
  intros w.
  assert (Hreg : consumers w !! "payments.process" = Some "amq.ctag-1") by reflexivity.
  assert (Hnone : consumers w !! "payments.dead" = None) by reflexivity.
  split; [exact Hreg|]. split; [|split; [exact Hnone|]].
  - destruct (cancelConsumer_removes_registration env_up config "payment-service"
                [EvConnect; EvConsume "payments.process" ∅] "payments.process")
      as [Hcancel _].
    destruct (Hcancel "amq.ctag-1" Hreg ltac:(discriminate)) as (ch & _ & _ & Hdone).
    destruct (Hdone eq_refl) as (w' & Hrun & _ & Hgone & _).
    exists w'. split; [exact Hrun|exact Hgone].
  - apply (cancelConsumer_removes_registration env_up config "payment-service"
             [EvConnect; EvConsume "payments.process" ∅] "payments.dead").
    exact Hnone.
Defined.

(** ** The retry counter and the dead-letter path of the payment service *)

Lemma retry_count_absent (msg : Delivery) :
  headers msg = None -> retry_count msg = 0.
Proof. intros H. unfold retry_count. by rewrite H. Qed.

Lemma retry_count_header (msg : Delivery) (h : gmap string Z) (n : Z) :
  headers msg = Some h -> h !! "x-retry-count" = Some n -> retry_count msg = n.
Proof.
  intros Hh Hn. unfold retry_count. rewrite Hh. simpl. rewrite Hn. simpl.
  destruct (Z.eqb_spec n 0); congruence.
Qed.

(** A requeued delivery carries the count it had. *)
Lemma retry_count_requeue (msg : Delivery) :
  retry_count (broker_requeue msg) = retry_count msg.
Proof. reflexivity. Qed.

(** [handleRetry], were it called, would send the work item back to the
    processing queue with the count it read plus one. *)
Lemma handleRetry_increments (env : Env) (cfg : Config) (retryData : gmap string Scalar)
    (msg : Delivery) (w : World) (ch : nat) :
  channel w = Some ch ->
  exists resolved,
    head (hist (world_of (handleRetry env cfg retryData msg w)))
    = Some (OpSendToQueue ch (queues_paymentsProcess cfg) (JSON_stringify retryData) resolved) /\
    resolved !! "headers" = Some (VHeaders {[ "x-retry-count" := retry_count msg + 1 ]}).
Proof.
  intros Hch. unfold handleRetry, bind at 1.
  erewrite sendToQueue_run; [|exact Hch|reflexivity|apply generateMessageId_run].
  eexists. split.
  - by destruct (accepted env _) as [[]|m].
  - rewrite spread_lookup_other; [|reflexivity]. apply lookup_singleton_eq.
Qed.

(** The callback [start] installs on the retry queue acknowledges whatever
    arrives there (and rejects it if the acknowledgement itself fails); it
    sends nothing. *)
Lemma retry_queue_callback (env : Env) (msg : Delivery) (body : gmap string Scalar)
    (w : World) (ch : nat) :
  channel w = Some ch -> content msg = Json body ->
  exists callback,
    callback_of env config "payments.retry" = Some callback /\
    let after := hist (settle_all (callback (Some msg) w)).1 in
    after = OpAck ch (deliveryTag msg) :: hist w \/
    after = OpNack ch (deliveryTag msg) false (negb (redelivered msg))
              :: OpAck ch (deliveryTag msg) :: hist w.
Proof.
  intros Hch Hbody. eexists. split; [reflexivity|].
  unfold on_message, try_catch. rewrite noAck_of_default, Hbody. simpl.
  unfold channel_ack, channel_nack, bind, get, request; simpl. rewrite Hch; simpl.
  destruct (settle env _) as [[]|m]; simpl; [by left|].
  rewrite Hch. simpl. by right.
Qed.

(** C1 (the code departs from it): a payment request arrives without an
    [x-retry-count] header and the gateway fails on every attempt. The first
    execution reads 0 and the delivery is rejected with requeue; nothing is
    sent with an incremented header. The requeued delivery is the second
    execution and reads 0 again, where the claim expects 1; it is rejected
    without requeue. What then reaches the retry queue is acknowledged by the
    logging callback and nothing is sent back. *)
Theorem second_execution_reads_zero :
  let run := run_event env_gateway_down config in
  let w1 := run (EvDelivery "payments.process" (Some first_delivery)) connected_client in
  let second := broker_requeue first_delivery in
  let w2 := run (EvDelivery "payments.process" (Some second)) w1 in
  let w3 := run (EvDelivery "payments.retry" (Some second)) w2 in
  retry_count first_delivery = 0 /\
  hist w1 = OpNack 1 1 false true :: OpMathRandom :: hist connected_client /\
  retry_count second = 0 /\
  retry_count second <> 1 /\
  hist w2 = OpNack 1 2 false false :: OpMathRandom :: hist w1 /\
  hist w3 = OpAck 1 2 :: hist w2.
Proof.
  vm_compute. repeat split; discriminate.
Qed.

Lemma settle_all_bind {A B} (m : M A) (f : A -> M B) (w : World) :
  settle_all (bind m f w) =
  match settle_all (m w) with
  | (w', Returned a) => settle_all (f a w')
  | (w', Thrown e) => (w', Thrown e)
  end.
Proof. apply settle_all_bindS. Qed.

Lemma settle_all_try_catch {A} (m : M A) (h : Err -> M A) (w : World) :
  settle_all (try_catch m h w) =
  match settle_all (m w) with
  | (w', Returned a) => (w', Returned a)
  | (w', Thrown e) => settle_all (h e w')
  end.
Proof. apply settle_all_catchS. Qed.

Lemma gateway_timeout (env : Env) (amount : Scalar) (w : World) :
  Qltb (random env (OpMathRandom :: hist w)) (3 # 10) = true ->
  simulatePaymentGateway env amount w
  = Fin (log OpMathRandom w) (Thrown (AppErr "Payment gateway timeout")).
Proof.
  intros H. unfold simulatePaymentGateway, bind, observe; simpl. by rewrite H.
Qed.

(** Past the maximum, [processPayment] records the failure and always ends
    by throwing. *)
Lemma processPayment_exhausted_throws (env : Env) (cfg : Config)
    (paymentData : gmap string Scalar) (msg : Delivery) (w : World) (ch : nat) :
  channel w = Some ch ->
  retry_maxAttempts cfg <= retry_count msg ->
  Qltb (random env (OpMathRandom :: hist w)) (3 # 10) = true ->
  exists w1 e,
    settle_all (processPayment env cfg paymentData msg w) = (w1, Thrown e) /\
    channel w1 = Some ch /\
    (exists failed, failedPayments w1 !! prop paymentData "orderId" = Some failed /\
                    failed !! "retryCount" = Some (SNum (retry_count msg))).
Proof.
  intros Hch Hmax Hrandom.
  assert (Hltb : (retry_count msg <? retry_maxAttempts cfg) = false)
    by (apply Z.ltb_ge; lia).
  unfold processPayment. rewrite settle_all_try_catch, settle_all_bind.
  rewrite gateway_timeout by done. simpl. rewrite Hltb.
  rewrite settle_all_bind. simpl. rewrite settle_all_bind. simpl.
  rewrite settle_all_bind. simpl. rewrite settle_all_bind.
  erewrite publish_run; [|exact Hch|reflexivity|apply generateMessageId_run].
  destruct (accepted env _) as [[]|m]; simpl;
    eexists _, _; (split; [reflexivity|]); simpl; (split; [exact Hch|]);
    eexists; (split; [apply lookup_insert_eq|]);
    rewrite lookup_insert_ne by done; apply lookup_insert_eq.
Qed.

(** So the flag of the rejection is decided by the redelivered flag alone,
    also on the dead-letter path. *)
Lemma exhausted_rejection_follows_redelivered (env : Env) (cfg : Config)
    (paymentData : gmap string Scalar) (msg : Delivery) (w : World) (ch : nat) :
  channel w = Some ch ->
  content msg = Json paymentData ->
  retry_maxAttempts cfg <= retry_count msg ->
  Qltb (random env (OpMathRandom :: hist w)) (3 # 10) = true ->
  exists rest,
    hist (settle_all (on_message env (processPayment env cfg) ∅ (Some msg) w)).1
    = OpNack ch (deliveryTag msg) false (negb (redelivered msg)) :: rest.
Proof.
  intros Hch Hbody Hmax Hrandom.
  destruct (processPayment_exhausted_throws env cfg paymentData msg w ch Hch Hmax Hrandom)
    as (w1 & e & Hrun & Hch1 & _).
  rewrite (on_message_handler_throws env (processPayment env cfg) ∅ msg paymentData
             w w1 e ch noAck_of_default Hbody Hrun Hch1).
  simpl. by exists (hist w1).
Qed.

(** C2 (the code departs from it): a fresh delivery carrying
    [x-retry-count: 3] with the maximum at 3, and a failing gateway. The
    item is recorded in [failedPayments] with retry count 3 and a
    [payment.failed] event is published on the fanout exchange, but the
    delivery is then rejected with requeue set, where the claim expects a
    rejection without requeue; the message goes back to the processing
    queue. *)
Theorem exhausted_delivery_is_requeued :
  let w1 := run_event env_gateway_down config
              (EvDelivery "payments.process" (Some exhausted_delivery)) connected_client in
  retry_maxAttempts config <= retry_count exhausted_delivery /\
  (failedPayments w1 !! SStr "ORD-1" ≫= fun failed => failed !! "retryCount")
    = Some (SNum 3) /\
  (exists body opts,
     body !! "eventType" = Some (SStr "payment.failed") /\
     hist w1 !! 1%nat = Some (OpPublish 1 "orders.fanout" "" (Json body) opts)) /\
  head (hist w1) = Some (OpNack 1 7 false true) /\
  head (hist w1) <> Some (OpNack 1 7 false false).
Proof.
  split; [vm_compute; discriminate|].
  split; [vm_compute; reflexivity|].
  split; [|split; [vm_compute; reflexivity|vm_compute; discriminate]].
  eexists _, _. split; [|vm_compute; reflexivity]. vm_compute. reflexivity.
Qed.

(* ================================================================== *)
(** * Further properties of the client *)

(** ** [connect], case by case *)

Lemma connect_run (env : Env) (cfg : Config) (w : World) :
  let op0 := OpConnect (amqpUrl cfg) (rabbitmq_heartbeat cfg) in
  connect env cfg w =
  match amqp_connect env (op0 :: hist w) with
  | Rejected _ => bindS (scheduleReconnect cfg (log op0 w)) (fun _ => ret false)
  | Resolved conn =>
      let w1 := log (OpCreateChannel conn) (set_connection (Some conn) (log op0 w)) in
      match create_channel env (hist w1) with
      | Rejected _ => bindS (scheduleReconnect cfg w1) (fun _ => ret false)
      | Resolved ch =>
          let w2 := log (OpPrefetch ch 1) (set_channel (Some ch) w1) in
          match settle env (hist w2) with
          | Rejected _ => bindS (scheduleReconnect cfg w2) (fun _ => ret false)
          | Resolved _ => Fin (set_isConnected true w2) (Returned true)
          end
      end
  end.
Proof.
  unfold connect, try_catch, bind, request, modify; simpl.
  destruct (amqp_connect env _) as [conn|m1]; simpl; [|reflexivity].
  destruct (create_channel env _) as [ch|m2]; simpl; [|reflexivity].
  destruct (settle env _) as [[]|m3]; reflexivity.
Qed.

(** X1: a [connect] that reports failure has not touched [isConnected] or
    the consumer registry; the connection and channel fields hold whatever
    was obtained before the failing step, so a refused [prefetch] leaves the
    new channel installed although the call returned false. *)
Theorem failed_connect_keeps_state (env : Env) (cfg : Config) (w w' : World) :
  connect env cfg w = Fin w' (Returned false) ->
  isConnected w' = isConnected w /\
  consumers w' = consumers w /\
  match amqp_connect env (OpConnect (amqpUrl cfg) (rabbitmq_heartbeat cfg) :: hist w) with
  | Rejected _ => connection w' = connection w /\ channel w' = channel w
  | Resolved conn =>
      connection w' = Some conn /\
      match create_channel env (OpCreateChannel conn
              :: OpConnect (amqpUrl cfg) (rabbitmq_heartbeat cfg) :: hist w) with
      | Rejected _ => channel w' = channel w
      | Resolved ch => channel w' = Some ch
      end
  end.
Proof.
  rewrite connect_run. cbn -[scheduleReconnect].
  destruct (amqp_connect env _) as [conn|m1].
  - destruct (create_channel env _) as [ch|m2].
    + destruct (settle env _) as [[]|m3]; [discriminate|].
      rewrite scheduleReconnect_run; simpl.
      destruct (reconnectTimer w); simpl; intros [= <-]; auto.
    + rewrite scheduleReconnect_run; simpl.
      destruct (reconnectTimer w); simpl; intros [= <-]; auto.
  - rewrite scheduleReconnect_run; simpl.
    destruct (reconnectTimer w); simpl; intros [= <-]; auto.
Qed.

Lemma failed_connect_keeps_state_witness :
  exists w', connect env_prefetch_fails config connected_client = Fin w' (Returned false) /\
             isConnected w' = true /\ channel w' = Some 1%nat.
Proof.
  eexists. split; [reflexivity|].
  destruct (failed_connect_keeps_state env_prefetch_fails config connected_client _ eq_refl)
    as (Hflag & _ & Hfields).
  split; [exact Hflag|]. simpl in Hfields. apply Hfields.
Defined.

(** ** The reconnect loop *)

Lemma fire_timer_run (env : Env) (cfg : Config) (w : World) (t : nat) :
  timer_inv w -> t ∈ timers w ->
  handle env cfg (EvTimer t) w
  = bindS (connect env cfg (set_reconnectTimer None (set_timers [] (next_timer w) w)))
      (fun _ => ret tt).
Proof.
  intros Hinv Hin. destruct (timer_inv_pending w t Hinv Hin) as [_ Ht].
  simpl. unfold fire_timer. rewrite bool_decide_eq_true_2 by done.
  unfold reconnect_callback, bind, modify; simpl.
  rewrite Ht. simpl. rewrite Nat.eqb_refl. simpl.
  by destruct (connect env cfg _) as [? []|].
Qed.

(** X2: when the reconnect timer fires, either the attempt succeeds (the
    client holds a new connection and channel, [isConnected] is true and no
    timer is pending) or it fails and exactly one new timer is pending,
    [isConnected] being left as it was: the loop goes on without bound. *)
Theorem reconnect_attempt_outcome (env : Env) (cfg : Config) (w : World) (t : nat) :
  timer_inv w -> t ∈ timers w ->
  let w' := run_event env cfg (EvTimer t) w in
  (exists conn ch, connection w' = Some conn /\ channel w' = Some ch /\
     isConnected w' = true /\ reconnectTimer w' = None /\ timers w' = []) \/
  (isConnected w' = isConnected w /\
   reconnectTimer w' = Some (next_timer w) /\ timers w' = [next_timer w] /\
   head (hist w') = Some (OpSetTimeout (next_timer w) (rabbitmq_reconnectInterval cfg))).
Proof.
  intros Hinv Hin w'. subst w'. unfold run_event.
  rewrite fire_timer_run by done. rewrite connect_run. cbn -[scheduleReconnect].
  destruct (amqp_connect env _) as [conn|m1].
  - destruct (create_channel env _) as [ch|m2].
    + destruct (settle env _) as [[]|m3]; cbn -[scheduleReconnect].
      * left. eauto 10.
      * right. rewrite scheduleReconnect_run. simpl. auto.
    + right. rewrite scheduleReconnect_run. simpl. auto.
  - right. rewrite scheduleReconnect_run. simpl. auto.
Qed.

Lemma reconnect_attempt_outcome_witness :
  let w := run_event env_down config EvConnect (new_client "payment-service") in
  let w' := run_event env_down config (EvTimer 0%nat) w in
  reconnectTimer w' = Some 1%nat /\ timers w' = [1%nat].
Proof.
  intros w w'.
  assert (Hinv : timer_inv w) by reflexivity.
  assert (Hin : 0%nat ∈ timers w) by (apply list_elem_of_singleton; reflexivity).
  destruct (reconnect_attempt_outcome env_down config w 0%nat Hinv Hin)
    as [(conn & ch & Hconn & _)|(_ & Hslot & Htimers & _)].
  - discriminate Hconn.
  - split; [exact Hslot|exact Htimers].
Defined.

(** X3: a reconnection attempt only connects, opens a channel, sets the
    prefetch and possibly starts a timer. It never asks the broker to
    consume again, never closes the earlier connection or channel, and
    leaves the consumer registry as it was: the consumers registered before
    the connection was lost are not re-established on the new channel. *)
Theorem reconnect_never_resubscribes (env : Env) (cfg : Config) (w : World) (t : nat) :
  timer_inv w -> t ∈ timers w ->
  let w' := run_event env cfg (EvTimer t) w in
  consumers w' = consumers w /\
  exists new, hist w' = (new ++ hist w)%list /\ Forall reconnect_op new.
Proof.
  intros Hinv Hin w'. subst w'. unfold run_event.
  rewrite fire_timer_run by done. rewrite connect_run. cbn -[scheduleReconnect].
  destruct (amqp_connect env _) as [conn|m1].
  - destruct (create_channel env _) as [ch|m2].
    + destruct (settle env _) as [[]|m3]; cbn -[scheduleReconnect].
      * split; [reflexivity|]. eexists [_; _; _]. split; [reflexivity|].
        repeat constructor.
      * rewrite scheduleReconnect_run. simpl. split; [reflexivity|].
        eexists [_; _; _; _]. split; [reflexivity|]. repeat constructor.
    + rewrite scheduleReconnect_run. simpl. split; [reflexivity|].
      eexists [_; _; _]. split; [reflexivity|]. repeat constructor.
  - rewrite scheduleReconnect_run. simpl. split; [reflexivity|].
    eexists [_; _]. split; [reflexivity|]. repeat constructor.
Qed.

Lemma reconnect_never_resubscribes_witness :
  let w := run_events env_up config
             [EvConnect; EvConsume "payments.process" ∅; EvConnectionClose]
             (new_client "payment-service") in
  let w' := run_event env_up config (EvTimer 0%nat) w in
  isConnected w' = true /\
  consumers w' = consumers w /\
  exists new, hist w' = (new ++ hist w)%list /\ Forall reconnect_op new.
Proof.
  intros w w'. split; [vm_compute; reflexivity|].
  assert (Hinv : timer_inv w) by (vm_compute; reflexivity).
  assert (Hin : 0%nat ∈ timers w).
  { replace (timers w) with [0%nat] by (vm_compute; reflexivity).
    by apply list_elem_of_singleton. }
  exact (reconnect_never_resubscribes env_up config w 0%nat Hinv Hin).
Defined.

(** ** [close] *)

Lemma bind_run {A B} (m : M A) (f : A -> M B) (w : World) :
  bind m f w = bindS (m w) f.
Proof. reflexivity. Qed.

Lemma clear_reconnect_timer_fin (w : World) :
  clear_reconnect_timer w = Fin (world_of (clear_reconnect_timer w)) (Returned tt).
Proof. rewrite clear_reconnect_timer_run. by destruct (reconnectTimer w). Qed.

Lemma clear_reconnect_timer_slot (w : World) :
  reconnectTimer (world_of (clear_reconnect_timer w)) = None.
Proof.
  rewrite clear_reconnect_timer_run. by destruct (reconnectTimer w) eqn:Ht.
Qed.

(** Running [close] is running it from the world its first statement
    leaves. *)
Lemma close_after_clear (env : Env) (w : World) :
  close env w = close env (world_of (clear_reconnect_timer w)).
Proof.
  unfold close, try_catch.
  rewrite !(bind_run clear_reconnect_timer).
  rewrite (clear_reconnect_timer_fin w) at 1.
  rewrite (clear_reconnect_timer_run (world_of _)), clear_reconnect_timer_slot.
  reflexivity.
Qed.

Lemma try_catch_swallows (m : M unit) (w : World) :
  (settle_all (try_catch m (fun _ => ret tt) w)).2 = Returned tt.
Proof.
  rewrite settle_all_try_catch. by destruct (settle_all (m w)) as [w' [[]|e]].
Qed.

(** After [close] the slot is empty and no timer of the client is pending. *)
Lemma close_clears_timer (env : Env) (w : World) :
  reconnectTimer (settle_all (close env w)).1 = None /\
  (timer_inv w -> timers (settle_all (close env w)).1 = []).
Proof.
  rewrite close_after_clear.
  set (w1 := world_of (clear_reconnect_timer w)).
  assert (H1 : reconnectTimer w1 = None) by apply clear_reconnect_timer_slot.
  split.
  - apply (keeps_settle_all (fun w => reconnectTimer w = None)).
    apply close_preserves; try done.
    + by intros op w2.
    + intros w2 H2. rewrite clear_reconnect_timer_run, H2. by constructor.
  - intros Hinv.
    assert (H : (fun w => reconnectTimer w = None /\ timers w = [])
                  (settle_all (close env w1)).1); [|by destruct H].
    apply keeps_settle_all. apply close_preserves.
    + by intros op w2 [? ?].
    + by intros b w2 [? ?].
    + by intros q w2 [? ?].
    + intros w2 [H2 H2']. rewrite clear_reconnect_timer_run, H2. by constructor.
    + split; [exact H1|].
      pose proof (clear_reconnect_timer_inv w Hinv) as Hk.
      rewrite clear_reconnect_timer_fin in Hk. inversion Hk as [? ? Hk'|]; subst.
      unfold timer_inv in Hk'. fold w1 in Hk'. by rewrite H1 in Hk'.
Qed.

(** X4: [close()] never raises, whatever the broker answers, and leaves no
    reconnect timer behind: the slot is empty and, in a world where the slot
    accounted for the runtime's timers, no timer is pending. *)
Theorem close_swallows_errors_and_clears_timer (env : Env) (w : World) :
  let w' := (settle_all (close env w)).1 in
  (settle_all (close env w)).2 = Returned tt /\
  reconnectTimer w' = None /\
  (timer_inv w -> timers w' = []).
Proof.
  intros w'. split; [apply try_catch_swallows|]. apply close_clears_timer.
Qed.

Lemma close_swallows_errors_and_clears_timer_witness :
  let w := run_events env_down config [EvConnect] (new_client "payment-service") in
  timers w = [0%nat] /\ timers (settle_all (close env_down w)).1 = [].
Proof.
  intros w. split; [reflexivity|].
  apply (close_swallows_errors_and_clears_timer env_down w). reflexivity.
Defined.

(** X5: [close()] does not end the reconnect loop. When the connection's
    close listener runs afterwards, as it does once the broker confirms the
    close, a new reconnect timer is started. *)
Theorem close_then_close_event_reschedules (env : Env) (cfg : Config) (w : World) :
  timer_inv w ->
  let w1 := (settle_all (close env w)).1 in
  let w2 := run_event env cfg EvConnectionClose w1 in
  reconnectTimer w2 = Some (next_timer w1) /\
  timers w2 = [next_timer w1] /\
  head (hist w2) = Some (OpSetTimeout (next_timer w1) (rabbitmq_reconnectInterval cfg)).
Proof.
  intros Hinv w1 w2.
  destruct (close_clears_timer env w) as (Hslot & Htimers).
  fold w1 in Hslot, Htimers. specialize (Htimers Hinv).
  subst w2. unfold run_event. simpl. unfold on_connection_close, bind, modify. simpl.
  rewrite scheduleReconnect_run. simpl. rewrite Hslot. simpl. by rewrite Htimers.
Qed.

Lemma close_then_close_event_reschedules_witness :
  let w1 := (settle_all (close env_up connected_client)).1 in
  let w2 := run_event env_up config EvConnectionClose w1 in
  isConnected w1 = false /\ reconnectTimer w2 = Some 0%nat /\ timers w2 = [0%nat].
Proof.
  intros w1 w2. split; [vm_compute; reflexivity|].
  assert (Hinv : timer_inv connected_client) by (vm_compute; reflexivity).
  destruct (close_then_close_event_reschedules env_up config connected_client Hinv)
    as (Hslot & Htimers & _).
  split; [exact Hslot|exact Htimers].
Defined.





(** X7: [close()] gives up at the first request the broker refuses: when
    closing the channel fails, the connection is never asked to close and
    [isConnected] keeps its value, yet the call returns normally. *)
Theorem close_stops_at_first_failure (env : Env) (w : World) (ch : nat) (m : string) :
  reconnectTimer w = None -> consumers w = ∅ -> channel w = Some ch ->
  settle env (OpChannelClose ch :: hist w) = Rejected m ->
  close env w = Fin (log (OpChannelClose ch) w) (Returned tt).
Proof.
  intros Hslot Hreg Hch Hrefused.
  unfold close, try_catch.
  rewrite (bind_run clear_reconnect_timer), clear_reconnect_timer_run, Hslot. simpl.
  unfold bind at 1, get at 1. simpl. rewrite Hreg, map_to_list_empty. simpl.
  unfold bind, get, request. simpl. rewrite Hch. simpl. by rewrite Hrefused.
Qed.

Lemma close_stops_at_first_failure_witness :
  let w' := (settle_all (close env_close_fails connected_client)).1 in
  isConnected w' = true /\ hist w' = OpChannelClose 1 :: hist connected_client.
Proof.
  intros w'. subst w'.
  rewrite (close_stops_at_first_failure env_close_fails connected_client 1%nat
             "Channel closed"); try reflexivity.
  split; reflexivity.
Defined.

(** ** [isHealthy] *)

(** X8: [isHealthy()] is true after a [connect] that returned true and false
    after the connection's error or close listener has run, but the
    channel's own error and close listeners change nothing at all: a client
    whose channel has died still reports healthy. *)
Theorem isHealthy_ignores_channel_events (env : Env) (cfg : Config) (w : World) :
  (forall w', connect env cfg w = Fin w' (Returned true) -> isHealthy w' = true) /\
  isHealthy (run_event env cfg EvConnectionError w) = false /\
  isHealthy (run_event env cfg EvConnectionClose w) = false /\
  run_event env cfg EvChannelError w = w /\
  run_event env cfg EvChannelClose w = w.
Proof.
  repeat split.
  - intros w'. rewrite connect_run. cbn -[scheduleReconnect].
    destruct (amqp_connect env _) as [conn|m1].
    + destruct (create_channel env _) as [ch|m2].
      * destruct (settle env _) as [[]|m3].
        -- by intros [= <-].
        -- rewrite scheduleReconnect_run. by destruct (reconnectTimer _).
      * rewrite scheduleReconnect_run. by destruct (reconnectTimer _).
    + rewrite scheduleReconnect_run. by destruct (reconnectTimer _).
  - unfold run_event; simpl. unfold on_connection_close, bind, modify; simpl.
    rewrite scheduleReconnect_run. by destruct (reconnectTimer _).
Qed.

Lemma isHealthy_ignores_channel_events_witness :
  isHealthy connected_client = true /\
  isHealthy (run_event env_up config EvChannelClose connected_client) = true.
Proof.
  destruct (isHealthy_ignores_channel_events env_up config (new_client "payment-service"))
    as (Hup & _).
  destruct (isHealthy_ignores_channel_events env_up config connected_client)
    as (_ & _ & _ & _ & Hsame).
  split.
  - apply Hup. reflexivity.
  - rewrite Hsame. apply Hup. reflexivity.
Defined.

(** ** The consumer callback, other outcomes *)

Lemma malformed_body_nack_witness :
  let msg := {| content := Garbage "{not json"; messageId := SUndef; headers := None;
                deliveryTag := 4; redelivered := true |} in
  (settle_all (on_message env_up (processPayment env_up config) ∅ (Some msg)
                 connected_client)).1
  = log (OpNack 1 4 false false) connected_client.
Proof.
  intros msg.
  apply (malformed_body_nack env_up (processPayment env_up config) ∅ msg "{not json"
           connected_client 1%nat); reflexivity.
Defined.

Lemma handler_success_ack_witness :
  settle_all (on_message env_up (handleDeadLetter env_up) ∅ (Some first_delivery)
                connected_client)
  = (log (OpAck 1 1)
       (settle_all (handleDeadLetter env_up
                      (filter (fun kv => kv.2 <> SUndef) payment_request)
                      first_delivery connected_client)).1,
     Returned tt).
Proof.
  apply (handler_success_ack env_up (handleDeadLetter env_up) ∅ first_delivery
           (filter (fun kv => kv.2 <> SUndef) payment_request) connected_client _ 1%nat);
    reflexivity.
Defined.

(** X11: a consumer registered with [noAck: true] neither acknowledges nor
    rejects: whether the handler returns or throws, and also when the body
    cannot be parsed, the callback returns normally and asks nothing of the
    channel beyond what the handler did. A handler error is dropped. *)
Theorem noAck_consumer_settles_nothing (env : Env)
    (handler : gmap string Scalar -> Delivery -> M unit) (options : gmap string JsVal)
    (msg : Delivery) (w : World) :
  options !! "noAck" = Some (VSc (SBool true)) ->
  (forall raw, content msg = Garbage raw ->
     settle_all (on_message env handler options (Some msg) w) = (w, Returned tt)) /\
  (forall body w1 r, content msg = Json body ->
     settle_all (handler body msg w) = (w1, r) ->
     settle_all (on_message env handler options (Some msg) w) = (w1, Returned tt)).
Proof.
  intros Hopt.
  assert (HnoAck : noAck_of options = true).
  { unfold noAck_of, spread. by rewrite lookup_union, Hopt. }
  split.
  - intros raw Hbody. unfold on_message, try_catch. by rewrite HnoAck, Hbody.
  - intros body w1 r Hbody Hrun. unfold on_message, try_catch.
    rewrite HnoAck, Hbody. simpl.
    rewrite settle_all_catchS. unfold bind at 1. rewrite settle_all_bindS. simpl.
    unfold bind at 1. rewrite settle_all_bindS, Hrun.
    by destruct r as [[]|e].
Qed.

Lemma noAck_consumer_settles_nothing_witness :
  settle_all (on_message env_gateway_down (processPayment env_gateway_down config)
                {[ "noAck" := VSc (SBool true) ]} (Some first_delivery) connected_client)
  = (log OpMathRandom connected_client, Returned tt).
Proof.
  assert (Hopt : ({[ "noAck" := VSc (SBool true) ]} : gmap string JsVal) !! "noAck"
                 = Some (VSc (SBool true))) by apply lookup_singleton_eq.
  destruct (noAck_consumer_settles_nothing env_gateway_down
              (processPayment env_gateway_down config) {[ "noAck" := VSc (SBool true) ]}
              first_delivery connected_client Hopt) as [_ Hrun].
  apply (Hrun (filter (fun kv => kv.2 <> SUndef) payment_request) _
           (Thrown (AppErr "Payment gateway timeout"))).
  - reflexivity.
  - vm_compute. reflexivity.
Defined.

(** X12: when the handler has returned but the acknowledgement itself throws,
    the callback falls into its catch block and rejects the same delivery,
    with requeue unless it was already redelivered: work that succeeded is
    queued to run again. *)
Theorem ack_failure_is_nacked (env : Env)
    (handler : gmap string Scalar -> Delivery -> M unit) (options : gmap string JsVal)
    (msg : Delivery) (body : gmap string Scalar) (w w1 : World) (ch : nat) (m : string) :
  noAck_of options = false ->
  content msg = Json body ->
  settle_all (handler body msg w) = (w1, Returned tt) ->
  channel w1 = Some ch ->
  settle env (OpAck ch (deliveryTag msg) :: hist w1) = Rejected m ->
  (settle_all (on_message env handler options (Some msg) w)).1
  = log (OpNack ch (deliveryTag msg) false (negb (redelivered msg)))
      (log (OpAck ch (deliveryTag msg)) w1).
Proof.
  intros HnoAck Hbody Hok Hch Hack.
  unfold on_message, try_catch. rewrite HnoAck, Hbody. simpl.
  rewrite settle_all_catchS. unfold bind at 1. rewrite settle_all_bindS. simpl.
  unfold bind at 1. rewrite settle_all_bindS, Hok. simpl.
  unfold channel_ack at 1, bind at 1, get at 1, request at 1. simpl. rewrite Hch. simpl.
  rewrite Hack. simpl.
  unfold channel_nack, bind, get. simpl. by rewrite Hch.
Qed.

Lemma ack_failure_is_nacked_witness :
  hist (settle_all (on_message env_ack_fails (fun _ _ => ret tt) ∅ (Some first_delivery)
                      connected_client)).1
  = OpNack 1 1 false true :: OpAck 1 1 :: hist connected_client.
Proof.
  rewrite (ack_failure_is_nacked env_ack_fails (fun _ _ => ret tt) ∅ first_delivery
             (filter (fun kv => kv.2 <> SUndef) payment_request)
             connected_client connected_client 1%nat "Channel closed");
    reflexivity.
Defined.

(** ** Registering consumers *)

(** X13: [consume] on a client with a channel asks the broker to consume the
    queue with [noAck] false unless [options] says otherwise. If the broker
    answers with a consumer tag, the tag is returned and stored under the
    queue, replacing whatever was stored there and leaving the other queues
    alone; if the broker refuses, the error reaches the caller and the
    registry is unchanged. *)
Theorem consume_registration (env : Env) (queue : string) (options : gmap string JsVal)
    (w : World) (ch : nat) :
  channel w = Some ch ->
  let resolved := spread consume_defaults options in
  let op := OpConsume ch queue resolved in
  resolved !! "noAck" = Some (default (VSc (SBool false)) (options !! "noAck")) /\
  match consumer_tag env (op :: hist w) with
  | Resolved tag =>
      exists w', consume env queue options w = Fin w' (Returned tag) /\
        hist w' = op :: hist w /\
        consumers w' !! queue = Some tag /\
        (forall q, q <> queue -> consumers w' !! q = consumers w !! q)
  | Rejected m =>
      consume env queue options w = Fin (log op w) (Thrown (LibErr m))
  end.
Proof.
  intros Hch resolved op. split; [by apply spread_lookup|].
  unfold consume, require_channel, bind, get, request, modify; simpl. rewrite Hch; simpl.
  fold resolved. fold op.
  destruct (consumer_tag env _) as [tag|m]; simpl; [|reflexivity].
  eexists. split; [reflexivity|]. simpl. split; [reflexivity|].
  split; [apply lookup_insert_eq|]. intros q Hq. by apply lookup_insert_ne.
Qed.

Lemma consume_registration_witness :
  exists w', consume env_up "payments.dead" ∅ connected_client
             = Fin w' (Returned "amq.ctag-1") /\
             consumers w' !! "payments.dead" = Some "amq.ctag-1".
Proof.
  destruct (consume_registration env_up "payments.dead" ∅ connected_client 1%nat eq_refl)
    as [_ Hrun].
  simpl in Hrun. destruct Hrun as (w' & Hrun & _ & Hreg & _).
  exists w'. split; [exact Hrun|exact Hreg].
Defined.

(** X14: consuming a queue that already has a registration forgets the first
    consumer tag. [cancelConsumer] afterwards cancels the second tag only
    and empties the entry, so a further [cancelConsumer] does nothing: the
    first consumer can no longer be cancelled through the client. *)
Theorem second_consume_forgets_first_tag (env : Env) (queue : string)
    (options : gmap string JsVal) (w : World) (ch : nat) (tag1 tag2 : string) :
  channel w = Some ch ->
  consumers w !! queue = Some tag1 ->
  consumer_tag env (OpConsume ch queue (spread consume_defaults options) :: hist w)
    = Resolved tag2 ->
  tag2 <> "" ->
  exists w1,
    consume env queue options w = Fin w1 (Returned tag2) /\
    consumers w1 !! queue = Some tag2 /\
    (settle env (OpCancel ch tag2 :: hist w1) = Resolved tt ->
     exists w2,
       cancelConsumer env queue w1 = Fin w2 (Returned tt) /\
       hist w2 = OpCancel ch tag2 :: hist w1 /\
       consumers w2 !! queue = None /\
       cancelConsumer env queue w2 = Fin w2 (Returned tt)).
Proof.
  intros Hch Hreg Htag Hne.
  assert (Hneb : negb (String.eqb tag2 "") = true).
  { apply negb_true_iff. by apply String.eqb_neq. }
  unfold consume, require_channel, bind, get, request, modify; simpl.
  rewrite Hch; simpl. rewrite Htag. simpl.
  eexists. split; [reflexivity|]. simpl. split; [apply lookup_insert_eq|].
  intros Hcancel.
  unfold cancelConsumer, bind, get, request, modify; simpl.
  rewrite lookup_insert_eq, Hch, Hneb. simpl. rewrite Hcancel. simpl.
  eexists. split; [reflexivity|]. simpl. split; [reflexivity|].
  split; [apply lookup_delete_eq|].
  by rewrite lookup_delete_eq.
Qed.

Lemma second_consume_forgets_first_tag_witness :
  let w := run_events env_tags config [EvConnect; EvConsume "payments.process" ∅]
             (new_client "payment-service") in
  consumers w !! "payments.process" = Some "amq.ctag-4" /\
  exists w1, consume env_tags "payments.process" ∅ w = Fin w1 (Returned "amq.ctag-5") /\
    exists w2, cancelConsumer env_tags "payments.process" w1 = Fin w2 (Returned tt) /\
      hist w2 = OpCancel 1 "amq.ctag-5" :: hist w1.
Proof.
  intros w.
  assert (Hreg : consumers w !! "payments.process" = Some "amq.ctag-4")
    by (vm_compute; reflexivity).
  split; [exact Hreg|].
  destruct (second_consume_forgets_first_tag env_tags "payments.process" ∅ w 1%nat
              "amq.ctag-4" "amq.ctag-5") as (w1 & Hrun & _ & Hcancel).
  - vm_compute. reflexivity.
  - exact Hreg.
  - vm_compute. reflexivity.
  - discriminate.
  - exists w1. split; [exact Hrun|].
    destruct (Hcancel eq_refl) as (w2 & Hrun2 & Hhist & _).
    exists w2. split; [exact Hrun2|exact Hhist].
Defined.

(** ** Topology and the other ways to publish *)

Lemma topology_defaults_lookup (options : gmap string JsVal) :
  let resolved := spread topology_defaults options in
  resolved !! "durable" = Some (default (VSc (SBool true)) (options !! "durable")) /\
  resolved !! "autoDelete" = Some (default (VSc (SBool false)) (options !! "autoDelete")) /\
  (forall k, k ∉ ["durable"; "autoDelete"] -> resolved !! k = options !! k).
Proof.
  intros resolved. split; [by apply spread_lookup|]. split; [by apply spread_lookup|].
  intros k Hk. apply spread_lookup_other. unfold topology_defaults.
  rewrite !not_elem_of_cons in Hk. destruct Hk as (H1 & H2 & _).
  rewrite lookup_insert_ne by congruence. apply lookup_singleton_ne. congruence.
Qed.

(** X15: on a client with a channel, [assertExchange] and [assertQueue]
    declare the entity durable and not auto-deleted unless [options] says
    otherwise, passing every other option through; [bindQueue] passes its
    arguments as they are. Each makes exactly one request and hands the
    broker's answer to the caller: [assertQueue] returns the reported queue
    depth, and a refusal is raised as it is, with no retry. *)
Theorem topology_requests (env : Env) (w : World) (ch : nat) :
  channel w = Some ch ->
  (forall exchange type options,
     let resolved := spread topology_defaults options in
     let op := OpAssertExchange ch exchange type resolved in
     assertExchange env exchange type options w
       = Fin (log op w) (outcome_of (settle env (op :: hist w))) /\
     resolved !! "durable" = Some (default (VSc (SBool true)) (options !! "durable")) /\
     resolved !! "autoDelete" = Some (default (VSc (SBool false)) (options !! "autoDelete")) /\
     (forall k, k ∉ ["durable"; "autoDelete"] -> resolved !! k = options !! k)) /\
  (forall queue options,
     let resolved := spread topology_defaults options in
     let op := OpAssertQueue ch queue resolved in
     assertQueue env queue options w
       = Fin (log op w) (outcome_of (queue_depth env (op :: hist w))) /\
     resolved !! "durable" = Some (default (VSc (SBool true)) (options !! "durable")) /\
     resolved !! "autoDelete" = Some (default (VSc (SBool false)) (options !! "autoDelete")) /\
     (forall k, k ∉ ["durable"; "autoDelete"] -> resolved !! k = options !! k)) /\
  (forall queue exchange routingKey args,
     let op := OpBindQueue ch queue exchange routingKey args in
     bindQueue env queue exchange routingKey args w
       = Fin (log op w) (outcome_of (settle env (op :: hist w)))).
Proof.
  intros Hch. split; [|split].
  - intros exchange type options resolved op. split; [|apply topology_defaults_lookup].
    unfold assertExchange, require_channel, bind, get, request; simpl.
    by rewrite Hch.
  - intros queue options resolved op. split; [|apply topology_defaults_lookup].
    unfold assertQueue, require_channel, bind, get, request; simpl. rewrite Hch; simpl.
    fold resolved. fold op. by destruct (queue_depth env _).
  - intros queue exchange routingKey args op.
    unfold bindQueue, require_channel, bind, get, request; simpl. by rewrite Hch.
Qed.

Lemma topology_requests_witness :
  assertQueue env_up "payments.process" {[ "durable" := VSc (SBool false) ]} connected_client
  = Fin (log (OpAssertQueue 1 "payments.process"
                (spread topology_defaults {[ "durable" := VSc (SBool false) ]}))
           connected_client)
        (Returned 0) /\
  spread topology_defaults {[ "durable" := VSc (SBool false) ]} !! "durable"
  = Some (VSc (SBool false)).
Proof.
  destruct (topology_requests env_up connected_client 1%nat eq_refl) as (_ & Hqueue & _).
  destruct (Hqueue "payments.process" {[ "durable" := VSc (SBool false) ]})
    as (Hrun & Hdurable & _).
  split; [exact Hrun|]. rewrite Hdurable. by rewrite lookup_singleton_eq.
Defined.

(** X16: [publishWithHeaders] publishes with the empty routing key, and the
    header table given as argument always wins over a [headers] field in
    [options]; the other metadata get the defaults of [publish]. *)
Theorem publishWithHeaders_headers_win (env : Env) (exchange : string)
    (message : gmap string Scalar) (hdrs : gmap string Z) (options : gmap string JsVal)
    (w : World) (ch : nat) :
  channel w = Some ch ->
  exists resolved,
    head (hist (world_of (publishWithHeaders env exchange message hdrs options w)))
    = Some (OpPublish ch exchange "" (JSON_stringify message) resolved) /\
    resolved !! "headers" = Some (VHeaders hdrs) /\
    resolved !! "persistent" = Some (default (VSc (SBool true)) (options !! "persistent")) /\
    resolved !! "contentType"
      = Some (default (VSc (SStr "application/json")) (options !! "contentType")).
Proof.
  intros Hch. unfold publishWithHeaders.
  erewrite publish_run; [|exact Hch|reflexivity|apply generateMessageId_run].
  eexists. split; [by destruct (accepted env _) as [[]|m]|].
  split; [|split].
  - rewrite spread_lookup_other by reflexivity. apply lookup_insert_eq.
  - erewrite spread_lookup by reflexivity. by rewrite lookup_insert_ne.
  - erewrite spread_lookup by reflexivity. by rewrite lookup_insert_ne.
Qed.

Lemma publishWithHeaders_headers_win_witness :
  exists resolved,
    head (hist (world_of (publishWithHeaders env_up "orders.headers" payment_request
                            {[ "x-tier" := 1 ]}
                            {[ "headers" := VHeaders {[ "x-tier" := 2 ]} ]}
                            connected_client)))
    = Some (OpPublish 1 "orders.headers" "" (JSON_stringify payment_request) resolved) /\
    resolved !! "headers" = Some (VHeaders {[ "x-tier" := 1 ]}).
Proof.
  destruct (publishWithHeaders_headers_win env_up "orders.headers" payment_request
              {[ "x-tier" := 1 ]} {[ "headers" := VHeaders {[ "x-tier" := 2 ]} ]}
              connected_client 1%nat eq_refl) as (resolved & Hhead & Hheaders & _).
  exists resolved. split; [exact Hhead|exact Hheaders].
Defined.

(** X17: [sendToQueue] on a client with a channel hands the serialized
    message for the named queue to the channel with the same metadata as
    [publish]: [persistent] true, [contentType] application/json, the clock
    as [timestamp] and a newly generated [messageId], each replaced by the
    field of [options] when present; once the write has returned, the call
    returns the resolved [messageId]. *)
Theorem sendToQueue_attaches_defaults (env : Env) (queue : string)
    (message : gmap string Scalar) (options : gmap string JsVal) (w : World) (ch : nat) :
  channel w = Some ch ->
  exists (timestamp : Z) (id : string) (w1 : World) (resolved : gmap string JsVal),
    timestamp = clock env (OpDateNow :: hist w) /\
    generateMessageId env (log OpDateNow w) = Fin w1 (Returned id) /\
    world_of (sendToQueue env queue message options w)
      = log (OpSendToQueue ch queue (JSON_stringify message) resolved) w1 /\
    resolved !! "persistent" = Some (default (VSc (SBool true)) (options !! "persistent")) /\
    resolved !! "contentType"
      = Some (default (VSc (SStr "application/json")) (options !! "contentType")) /\
    resolved !! "timestamp" = Some (default (VSc (SNum timestamp)) (options !! "timestamp")) /\
    resolved !! "messageId" = Some (default (VSc (SStr id)) (options !! "messageId")) /\
    (forall flag : bool,
       accepted env (hist (world_of (sendToQueue env queue message options w)))
         = Resolved flag ->
       (settle_all (sendToQueue env queue message options w)).2
         = Returned (default (VSc (SStr id)) (options !! "messageId"))).
Proof.
  intros Hch.
  pose proof (generateMessageId_run env (log OpDateNow w)) as Hid.
  pose proof (sendToQueue_run env queue message options w ch Hch
                _ _ _ eq_refl Hid) as Hrun.
  simpl in Hrun.
  set (timestamp := clock env (OpDateNow :: hist w)) in *.
  set (id := (serviceName w +:+ _)%string) in *.
  set (resolved := spread (publish_defaults timestamp id) options) in *.
  assert (Hmid : resolved !! "messageId"
                 = Some (default (VSc (SStr id)) (options !! "messageId"))).
  { apply spread_lookup. reflexivity. }
  exists timestamp, id, (log OpMathRandom (log OpDateNow (log OpDateNow w))), resolved.
  split; [reflexivity|]. split; [exact Hid|].
  split; [|split; [|split; [|split; [|split]]]].
  - rewrite Hrun. by destruct (accepted env _) as [[]|m].
  - apply spread_lookup. reflexivity.
  - apply spread_lookup. reflexivity.
  - apply spread_lookup. reflexivity.
  - exact Hmid.
  - intros flag. rewrite Hrun.
    destruct (accepted env _) as [[]|m] eqn:Hacc; simpl; rewrite ?Hacc;
      intros Hflag; try discriminate; by rewrite Hmid.
Qed.

Lemma sendToQueue_attaches_defaults_witness :
  exists id : string,
    (settle_all (sendToQueue env_full "payments.process" payment_request ∅
                   connected_client)).2
    = Returned (VSc (SStr id)).
Proof.
  destruct (sendToQueue_attaches_defaults env_full "payments.process" payment_request ∅
              connected_client 1%nat eq_refl)
    as (timestamp & id & w1 & resolved & _ & _ & _ & _ & _ & _ & _ & Hret).
  exists id. apply (Hret false). reflexivity.
Defined.

(* ================================================================== *)
(** * Further properties of the payment service *)

Lemma Qltb_lt (x y : Q) : Qltb x y = true <-> (x < y)%Q.
Proof.
  unfold Qltb. rewrite negb_true_iff. split.
  - intros H. apply Qnot_le_lt. intros Hle. apply Qle_bool_iff in Hle. congruence.
  - intros H. destruct (Qle_bool y x) eqn:E; [|done].
    apply Qle_bool_iff in E. by apply Qlt_not_le in H.
Qed.

Lemma Qltb_ge (x y : Q) : Qltb x y = false <-> (y <= x)%Q.
Proof.
  unfold Qltb. rewrite negb_false_iff. apply Qle_bool_iff.
Qed.

(** X18: the simulated gateway looks at one random number and never at the
    amount: below 0.3 it throws "Payment gateway timeout", from 0.3 up to
    0.4 it throws "Insufficient funds", and from 0.4 on it returns a
    completed transaction whose id starts with "TXN-". *)
Theorem simulatePaymentGateway_outcomes (env : Env) (amount : Scalar) (w : World) :
  let r := random env (OpMathRandom :: hist w) in
  ((r < 3 # 10)%Q ->
     simulatePaymentGateway env amount w
     = Fin (log OpMathRandom w) (Thrown (AppErr "Payment gateway timeout"))) /\
  ((3 # 10 <= r)%Q -> (r < 4 # 10)%Q ->
     simulatePaymentGateway env amount w
     = Fin (log OpMathRandom w) (Thrown (AppErr "Insufficient funds"))) /\
  ((4 # 10 <= r)%Q ->
     exists w' result suffix,
       simulatePaymentGateway env amount w = Fin w' (Returned result) /\
       hist w' = OpDateNow :: OpMathRandom :: OpDateNow :: OpMathRandom :: hist w /\
       result !! "status" = Some (SStr "completed") /\
       result !! "transactionId" = Some (SStr ("TXN-" +:+ suffix))).
Proof.
  intros r. split; [|split].
  - intros H. apply gateway_timeout. by apply Qltb_lt.
  - intros H1 H2. unfold simulatePaymentGateway, bind, observe; simpl. fold r.
    apply Qltb_ge in H1. apply Qltb_lt in H2. by rewrite H1, H2.
  - intros H. unfold simulatePaymentGateway, now_iso, bind, observe; simpl. fold r.
    assert (H3 : Qltb r (3 # 10) = false).
    { apply Qltb_ge. eapply Qle_trans; [|exact H]. by apply Qle_bool_iff. }
    apply Qltb_ge in H. rewrite H3, H. simpl.
    eexists _, _, _. split; [reflexivity|]. split; [reflexivity|]. split.
    + by rewrite lookup_insert_ne, lookup_insert_eq.
    + apply lookup_insert_eq.
Qed.

Lemma simulatePaymentGateway_outcomes_witness :
  simulatePaymentGateway env_gateway_down (SNum 120) connected_client
  = Fin (log OpMathRandom connected_client) (Thrown (AppErr "Payment gateway timeout")) /\
  exists w' result,
    simulatePaymentGateway env_up (SNum 120) connected_client = Fin w' (Returned result) /\
    result !! "status" = Some (SStr "completed").
Proof.
  split.
  - apply (simulatePaymentGateway_outcomes env_gateway_down (SNum 120) connected_client).
    reflexivity.
  - destruct (simulatePaymentGateway_outcomes env_up (SNum 120) connected_client)
      as (_ & _ & Hok).
    destruct Hok as (w' & result & suffix & Hrun & _ & Hstatus & _); [discriminate|].
    exists w', result. split; [exact Hrun|exact Hstatus].
Defined.

(** X19: while the retry count is below the maximum, a payment the gateway
    refuses makes [processPayment] rethrow the gateway's error having done
    nothing else: no store is written and nothing is published (the only
    thing asked of the outside is the random number). *)
Theorem processPayment_below_max_rethrows (env : Env) (cfg : Config)
    (paymentData : gmap string Scalar) (msg : Delivery) (w : World) :
  retry_count msg < retry_maxAttempts cfg ->
  (random env (OpMathRandom :: hist w) < 4 # 10)%Q ->
  exists reason,
    settle_all (processPayment env cfg paymentData msg w)
    = (log OpMathRandom w, Thrown (AppErr reason)) /\
    (reason = "Payment gateway timeout" \/ reason = "Insufficient funds").
Proof.
  intros Hcount Hr.
  assert (Hltb : (retry_count msg <? retry_maxAttempts cfg) = true) by by apply Z.ltb_lt.
  assert (Hgw : exists reason,
            simulatePaymentGateway env (prop paymentData "amount") w
            = Fin (log OpMathRandom w) (Thrown (AppErr reason)) /\
            (reason = "Payment gateway timeout" \/ reason = "Insufficient funds")).
  { unfold simulatePaymentGateway, bind, observe; simpl.
    destruct (Qltb (random env _) (3 # 10)) eqn:E3; [eauto|].
    apply Qltb_lt in Hr. rewrite Hr. eauto. }
  destruct Hgw as (reason & Hgw & Hreason). exists reason. split; [|exact Hreason].
  unfold processPayment. rewrite settle_all_try_catch, settle_all_bind, Hgw. simpl.
  by rewrite Hltb.
Qed.

Lemma processPayment_below_max_rethrows_witness :
  exists reason,
    settle_all (processPayment env_gateway_down config payment_request first_delivery
                  connected_client)
    = (log OpMathRandom connected_client, Thrown (AppErr reason)).
Proof.
  destruct (processPayment_below_max_rethrows env_gateway_down config payment_request
              first_delivery connected_client) as (reason & Hrun & _).
  - reflexivity.
  - reflexivity.
  - exists reason. exact Hrun.
Defined.

(** The gateway's success, as the world it leaves. *)
Lemma simulatePaymentGateway_success (env : Env) (amount : Scalar) (w : World) :
  (4 # 10 <= random env (OpMathRandom :: hist w))%Q ->
  exists w' result,
    simulatePaymentGateway env amount w = Fin w' (Returned result) /\
    (channel w' = channel w /\ payments w' = payments w /\
     failedPayments w' = failedPayments w /\
     published (hist w') = published (hist w)) /\
    result !! "status" = Some (SStr "completed").
Proof.
  intros H. unfold simulatePaymentGateway, now_iso, bind, observe; simpl.
  assert (H3 : Qltb (random env (OpMathRandom :: hist w)) (3 # 10) = false).
  { apply Qltb_ge. eapply Qle_trans; [|exact H]. by apply Qle_bool_iff. }
  apply Qltb_ge in H. rewrite H3, H. simpl.
  eexists _, _. split; [reflexivity|]. split; [done|].
  by rewrite lookup_insert_ne, lookup_insert_eq.
Qed.

(** [publish] run to the end, when the channel write returns. *)
Lemma publish_settles (env : Env) (exchange routingKey : string)
    (message : gmap string Scalar) (options : gmap string JsVal) (w : World) (ch : nat) :
  channel w = Some ch ->
  (forall h, exists flag, accepted env h = Resolved flag) ->
  exists resolved id,
    settle_all (publish env exchange routingKey message options w)
    = (log (OpPublish ch exchange routingKey (JSON_stringify message) resolved)
         (log OpMathRandom (log OpDateNow (log OpDateNow w))),
       Returned id).
Proof.
  intros Hch Hacc.
  erewrite publish_run; [|exact Hch|reflexivity|apply generateMessageId_run].
  match goal with
  | |- context [accepted env ?h] => destruct (Hacc h) as [flag Hflag]; rewrite Hflag
  end.
  destruct flag; simpl; eauto.
Qed.

Lemma sendToQueue_settles (env : Env) (queue : string)
    (message : gmap string Scalar) (options : gmap string JsVal) (w : World) (ch : nat) :
  channel w = Some ch ->
  (forall h, exists flag, accepted env h = Resolved flag) ->
  exists id,
    settle_all (sendToQueue env queue message options w)
    = (log (OpSendToQueue ch queue (JSON_stringify message)
              (spread (publish_defaults (clock env (OpDateNow :: hist w))
                         (serviceName w +:+ "-"
                            +:+ pretty (clock env (OpDateNow :: OpDateNow :: hist w)) +:+ "-"
                            +:+ base36 env
                                  (random env (OpMathRandom :: OpDateNow :: OpDateNow :: hist w))))
                 options))
         (log OpMathRandom (log OpDateNow (log OpDateNow w))),
       Returned id).
Proof.
  intros Hch Hacc.
  erewrite sendToQueue_run; [|exact Hch|reflexivity|apply generateMessageId_run].
  match goal with
  | |- context [accepted env ?h] => destruct (Hacc h) as [flag Hflag]; rewrite Hflag
  end.
  destruct flag; simpl; eauto.
Qed.

(** X20: when the gateway accepts (random number at least 0.4) and the
    channel takes the writes, [processPayment] returns normally having
    stored the payment under its order id with status completed and the
    retry count it read, left [failedPayments] alone, and published exactly
    two messages: a [payment.success] event on the fanout exchange with an
    empty routing key, then a request on the topic exchange with routing key
    [shipping.create] whose address is the request's or "Default Address". *)
Theorem processPayment_success (env : Env) (cfg : Config)
    (paymentData : gmap string Scalar) (msg : Delivery) (w : World) (ch : nat) :
  channel w = Some ch ->
  (forall h, exists flag, accepted env h = Resolved flag) ->
  (4 # 10 <= random env (OpMathRandom :: hist w))%Q ->
  exists w' payment event shipping,
    settle_all (processPayment env cfg paymentData msg w) = (w', Returned tt) /\
    failedPayments w' = failedPayments w /\
    payments w' = <[prop paymentData "orderId" := payment]> (payments w) /\
    payment !! "status" = Some (SStr "completed") /\
    payment !! "retryCount" = Some (SNum (retry_count msg)) /\
    published (hist w')
      = (exchanges_ordersTopic cfg, "shipping.create", Json shipping)
          :: (exchanges_ordersFanout cfg, "", Json event) :: published (hist w) /\
    event !! "eventType" = Some (SStr "payment.success") /\
    shipping !! "shippingAddress"
      = Some (if truthy_scalar (prop paymentData "shippingAddress")
              then prop paymentData "shippingAddress" else SStr "Default Address").
Proof.
  intros Hch Hacc Hr.
  destruct (simulatePaymentGateway_success env (prop paymentData "amount") w Hr)
    as (w1 & result & Hgw & (Hch1 & Hpay1 & Hfail1 & Hpub1) & Hstatus).
  unfold processPayment. rewrite settle_all_try_catch, settle_all_bind, Hgw. simpl.
  rewrite settle_all_bind. simpl. rewrite settle_all_bind. simpl.
  rewrite settle_all_bind. simpl. rewrite settle_all_bind.
  match goal with
  | |- context [settle_all (publish env ?e ?k ?m ?o ?w0)] =>
      destruct (publish_settles env e k m o w0 ch) as (o1 & id1 & Hp1);
        [simpl; by rewrite Hch1, Hch|exact Hacc|rewrite Hp1]
  end.
  simpl. rewrite settle_all_bind. simpl. rewrite settle_all_bind.
  match goal with
  | |- context [settle_all (publish env ?e ?k ?m ?o ?w0)] =>
      destruct (publish_settles env e k m o w0 ch) as (o2 & id2 & Hp2);
        [simpl; by rewrite Hch1, Hch|exact Hacc|rewrite Hp2]
  end.
  simpl. eexists _, _, _, _. split; [reflexivity|]. simpl.
  rewrite Hfail1, Hpay1, Hpub1.
  split; [reflexivity|]. split; [reflexivity|].
  split. { rewrite !lookup_insert_ne by done. apply lookup_union_Some_l. exact Hstatus. }
  split. { by rewrite lookup_insert_ne, lookup_insert_eq. }
  split; [reflexivity|]. split.
  - apply map_lookup_filter_Some. split; [|done].
    apply lookup_insert_eq.
  - apply map_lookup_filter_Some. split.
    + by rewrite lookup_insert_ne, lookup_insert_eq.
    + simpl. destruct (truthy_scalar (prop paymentData "shippingAddress")) eqn:E; [|done].
      intros Hu. rewrite Hu in E. discriminate.
Qed.

Lemma processPayment_success_witness :
  exists w',
    settle_all (processPayment env_up config payment_request first_delivery connected_client)
    = (w', Returned tt) /\
    failedPayments w' = ∅ /\
    published (hist w')
    = [("orders.topic", "shipping.create",
        match published (hist w') !! 0%nat with Some (_, _, b) => b | None => Garbage "" end);
       ("orders.fanout", "",
        match published (hist w') !! 1%nat with Some (_, _, b) => b | None => Garbage "" end)].
Proof.
  destruct (processPayment_success env_up config payment_request first_delivery
              connected_client 1%nat) as (w' & payment & event & shipping & Hrun & Hfail
                                          & _ & _ & _ & Hpub & _).
  - reflexivity.
  - intros h. by exists true.
  - discriminate.
  - exists w'. split; [exact Hrun|]. split; [exact Hfail|].
    rewrite Hpub. reflexivity.
Defined.

(** X21: the payment is written to [payments] before the success event is
    published. When that publish throws, [processPayment] treats it as a
    failed payment: below the maximum it rethrows (so the delivery is
    rejected and will be processed again) although the payment stays
    recorded as completed and nothing is written to [failedPayments]. *)
Theorem payment_kept_when_event_fails (env : Env) (cfg : Config)
    (paymentData : gmap string Scalar) (msg : Delivery) (w : World) (ch : nat) (m : string) :
  channel w = Some ch ->
  (forall h, accepted env h = Rejected m) ->
  (4 # 10 <= random env (OpMathRandom :: hist w))%Q ->
  retry_count msg < retry_maxAttempts cfg ->
  exists w' payment,
    settle_all (processPayment env cfg paymentData msg w) = (w', Thrown (LibErr m)) /\
    payments w' !! prop paymentData "orderId" = Some payment /\
    payment !! "status" = Some (SStr "completed") /\
    failedPayments w' = failedPayments w /\
    length (published (hist w')) = S (length (published (hist w))).
Proof.
  intros Hch Hacc Hr Hcount.
  assert (Hltb : (retry_count msg <? retry_maxAttempts cfg) = true) by by apply Z.ltb_lt.
  destruct (simulatePaymentGateway_success env (prop paymentData "amount") w Hr)
    as (w1 & result & Hgw & (Hch1 & Hpay1 & Hfail1 & Hpub1) & Hstatus).
  unfold processPayment. rewrite settle_all_try_catch, settle_all_bind, Hgw. simpl.
  rewrite settle_all_bind. simpl. rewrite settle_all_bind. simpl.
  rewrite settle_all_bind. simpl. rewrite settle_all_bind.
  erewrite publish_run; [|simpl; by rewrite Hch1, Hch|reflexivity|apply generateMessageId_run].
  rewrite Hacc. simpl. rewrite Hltb. simpl.
  eexists _, _. split; [reflexivity|]. simpl. rewrite Hfail1, Hpub1.
  split; [apply lookup_insert_eq|]. split; [|done].
  rewrite !lookup_insert_ne by done. apply lookup_union_Some_l. exact Hstatus.
Qed.

Lemma payment_kept_when_event_fails_witness :
  exists w' payment,
    settle_all (processPayment env_write_throws config payment_request first_delivery
                  connected_client)
    = (w', Thrown (LibErr "Channel closed")) /\
    payments w' !! prop payment_request "orderId" = Some payment /\
    payment !! "status" = Some (SStr "completed").
Proof.
  destruct (payment_kept_when_event_fails env_write_throws config payment_request
              first_delivery connected_client 1%nat "Channel closed")
    as (w1 & payment & Hrun & Hpay & Hstatus & _).
  - reflexivity.
  - reflexivity.
  - discriminate.
  - reflexivity.
  - exists w1, payment. split; [exact Hrun|]. split; [exact Hpay|exact Hstatus].
Defined.

(** [handleDeadLetter] never raises and asks nothing of the broker. It
    stores, under the order id of the body, a record made of the body's own
    fields plus [deadLetteredAt] and [reason]. Other orders are untouched. *)
Lemma handleDeadLetter_replaces_record (env : Env) (deadData : gmap string Scalar)
    (msg : Delivery) (w : World) :
  exists w' record,
    handleDeadLetter env deadData msg w = Fin w' (Returned tt) /\
    hist w' = OpDateNow :: hist w /\
    failedPayments w' !! prop deadData "orderId" = Some record /\
    (forall key, key <> prop deadData "orderId" ->
       failedPayments w' !! key = failedPayments w !! key) /\
    payments w' = payments w /\
    record !! "reason" = Some (SStr "Max retries exceeded or permanent failure") /\
    (exists at_, record !! "deadLetteredAt" = Some (SStr at_)) /\
    (forall k, k ∉ ["reason"; "deadLetteredAt"] -> record !! k = deadData !! k).
Proof.
  unfold handleDeadLetter, now_iso, bind, observe, modify; simpl.
  eexists _, _. split; [reflexivity|]. simpl. split; [reflexivity|].
  split; [apply lookup_insert_eq|]. split.
  { intros key Hkey. by apply lookup_insert_ne. }
  split; [reflexivity|]. split; [apply lookup_insert_eq|]. split.
  { eexists. by rewrite lookup_insert_ne, lookup_insert_eq. }
  intros k Hk. rewrite !not_elem_of_cons in Hk. destruct Hk as (H1 & H2 & _).
  by rewrite !lookup_insert_ne by congruence.
Qed.

(** X22: the record [processPayment] writes on the dead-letter path does not
    survive the dead-letter queue. Once the same work item is handled by
    [handleDeadLetter], the entry of that order is replaced by the body plus
    [deadLetteredAt] and a fixed [reason]: the [retryCount] recorded at the
    failure is gone unless the body itself carries one. *)
Theorem dead_letter_replaces_failure_record (env : Env) (cfg : Config)
    (paymentData : gmap string Scalar) (msg msg' : Delivery) (w : World) (ch : nat) :
  channel w = Some ch ->
  retry_maxAttempts cfg <= retry_count msg ->
  Qltb (random env (OpMathRandom :: hist w)) (3 # 10) = true ->
  paymentData !! "retryCount" = None ->
  let w1 := (settle_all (processPayment env cfg paymentData msg w)).1 in
  let w2 := (settle_all (handleDeadLetter env paymentData msg' w1)).1 in
  (exists failed, failedPayments w1 !! prop paymentData "orderId" = Some failed /\
                  failed !! "retryCount" = Some (SNum (retry_count msg))) /\
  (exists record, failedPayments w2 !! prop paymentData "orderId" = Some record /\
                  record !! "retryCount" = None /\
                  record !! "reason"
                  = Some (SStr "Max retries exceeded or permanent failure")) /\
  published (hist w2) = published (hist w1).
Proof.
  intros Hch Hmax Hr Hbody w1 w2.
  destruct (processPayment_exhausted_throws env cfg paymentData msg w ch Hch Hmax Hr)
    as (w1' & e & Hrun & _ & Hfailed).
  assert (Hw1 : w1 = w1') by (unfold w1; by rewrite Hrun).
  split; [by rewrite Hw1|].
  destruct (handleDeadLetter_replaces_record env paymentData msg' w1)
    as (w2' & record & Hrun2 & Hhist & Hrec & _ & _ & Hreason & _ & Hother).
  assert (Hw2 : w2 = w2') by (unfold w2; by rewrite Hrun2).
  rewrite Hw2. split.
  - exists record. split; [exact Hrec|]. split; [|exact Hreason].
    rewrite Hother; [exact Hbody|]. rewrite !not_elem_of_cons. repeat split; try done.
    apply not_elem_of_nil.
  - by rewrite Hhist.
Qed.

Lemma dead_letter_replaces_failure_record_witness :
  let w1 := (settle_all (processPayment env_gateway_down config payment_request
                           exhausted_delivery connected_client)).1 in
  let w2 := (settle_all (handleDeadLetter env_gateway_down payment_request
                           exhausted_delivery w1)).1 in
  (failedPayments w1 !! SStr "ORD-1" ≫= fun r => r !! "retryCount") = Some (SNum 3) /\
  exists record, failedPayments w2 !! prop payment_request "orderId" = Some record /\
                 record !! "retryCount" = None.
Proof.
  intros w1 w2. split; [vm_compute; reflexivity|].
  destruct (dead_letter_replaces_failure_record env_gateway_down config payment_request
              exhausted_delivery exhausted_delivery connected_client 1%nat)
    as (_ & (record & Hrec & Hcount & _) & _).
  - reflexivity.
  - vm_compute. discriminate.
  - reflexivity.
  - vm_compute. reflexivity.
  - exists record. split; [exact Hrec|exact Hcount].
Defined.

(** X23: the manual retry endpoint answers false and does nothing for an
    order that is not in [failedPayments]. For one that is, on a client with
    a channel that takes the write, it sends one message to the processing
    queue carrying only [orderId], [userId], [amount] and [method] of the
    record with [x-retry-count] 0 (so the next execution reads count 0),
    removes the record and answers true. Without a channel it raises the
    precondition error and the record stays. *)
Theorem manual_retry_resubmits (env : Env) (cfg : Config) (orderId : string) (w : World) :
  (failedPayments w !! SStr orderId = None ->
     manual_retry env cfg orderId w = Fin w (Returned false)) /\
  (forall failed ch,
     failedPayments w !! SStr orderId = Some failed ->
     channel w = Some ch ->
     (forall h, exists flag, accepted env h = Resolved flag) ->
     exists w' resolved hdrs,
       settle_all (manual_retry env cfg orderId w) = (w', Returned true) /\
       head (hist w')
       = Some (OpSendToQueue ch (queues_paymentsProcess cfg)
                 (JSON_stringify {[ "orderId" := prop failed "orderId";
                                    "userId" := prop failed "userId";
                                    "amount" := prop failed "amount";
                                    "method" := prop failed "method" ]}) resolved) /\
       resolved !! "headers" = Some (VHeaders hdrs) /\
       (forall d, headers d = Some hdrs -> retry_count d = 0) /\
       failedPayments w' = delete (SStr orderId) (failedPayments w) /\
       length (published (hist w')) = S (length (published (hist w)))) /\
  (forall failed,
     failedPayments w !! SStr orderId = Some failed ->
     channel w = None ->
     manual_retry env cfg orderId w = Fin w (Thrown ChannelNotInitialized)).
Proof.
  split; [|split].
  - intros Hnone. unfold manual_retry, bind, get; simpl. by rewrite Hnone.
  - intros failed ch Hfound Hch Hacc.
    unfold manual_retry. rewrite settle_all_bind. simpl. rewrite Hfound.
    rewrite settle_all_bind.
    match goal with
    | |- context [settle_all (sendToQueue env ?q ?msg ?o w)] =>
        destruct (sendToQueue_settles env q msg o w ch Hch Hacc) as (id & Hsend)
    end.
    rewrite Hsend. simpl.
    eexists _, _, _. split; [reflexivity|]. simpl. split; [reflexivity|].
    split. { rewrite spread_lookup_other by reflexivity. apply lookup_singleton_eq. }
    split; [|done].
    intros d Hd. eapply retry_count_header; [exact Hd|apply lookup_singleton_eq].
  - intros failed Hfound Hch.
    unfold manual_retry, sendToQueue, require_channel, bind, get; simpl.
    by rewrite Hfound, Hch.
Qed.

Lemma manual_retry_resubmits_witness :
  let w := run_event env_gateway_down config
             (EvDelivery "payments.process" (Some exhausted_delivery)) connected_client in
  is_Some (failedPayments w !! SStr "ORD-1") /\
  exists w', settle_all (manual_retry env_up config "ORD-1" w) = (w', Returned true) /\
             failedPayments w' !! SStr "ORD-1" = None.
Proof.
  intros w.
  assert (Hfound : exists failed, failedPayments w !! SStr "ORD-1" = Some failed).
  { eexists. vm_compute. reflexivity. }
  destruct Hfound as [failed Hfound]. split; [by exists failed|].
  destruct (manual_retry_resubmits env_up config "ORD-1" w) as (_ & Hretry & _).
  destruct (Hretry failed 1%nat Hfound) as (w' & _ & _ & Hrun & _ & _ & _ & Hdel & _).
  - vm_compute. reflexivity.
  - intros h. by exists true.
  - exists w'. split; [exact Hrun|]. rewrite Hdel. apply lookup_delete_eq.
Defined.



(** ** [start] *)

(** X25: [start] does not look at the result of [connect]. On a client
    without a channel, when the broker cannot be reached the first [consume]
    raises the precondition error and the service exits with status 1,
    having subscribed to nothing, although [connect] had just scheduled a
    reconnection. *)
Theorem start_exits_when_broker_unreachable (env : Env) (cfg : Config) (w : World)
    (m : string) :
  channel w = None ->
  amqp_connect env (OpConnect (amqpUrl cfg) (rabbitmq_heartbeat cfg) :: hist w) = Rejected m ->
  exists w',
    start env cfg w = Fin w' (Returned false) /\
    is_Some (reconnectTimer w') /\
    consumed (hist w') = consumed (hist w) /\
    consumers w' = consumers w.
Proof.
  intros Hch Hdown. unfold start, try_catch.
  rewrite bind_run, connect_run. cbn -[scheduleReconnect]. rewrite Hdown.
  rewrite scheduleReconnect_run. simpl.
  unfold consume, require_channel, bind, get. simpl.
  destruct (reconnectTimer w) as [t|] eqn:Ht; simpl; rewrite Hch; simpl;
    eexists; (split; [reflexivity|]); simpl; rewrite ?Ht; eauto.
Qed.

Lemma start_exits_when_broker_unreachable_witness :
  exists w',
    start env_down config (new_client "payment-service") = Fin w' (Returned false) /\
    is_Some (reconnectTimer w') /\ consumed (hist w') = [].
Proof.
  destruct (start_exits_when_broker_unreachable env_down config
              (new_client "payment-service") "connect ECONNREFUSED" eq_refl eq_refl)
    as (w' & Hrun & Hslot & Hnone & _).
  exists w'. split; [exact Hrun|]. split; [exact Hslot|exact Hnone].
Defined.

(** X26: when the broker accepts the connection, the channel, the prefetch
    and the three subscriptions, [start] ends serving: the client is
    connected and has asked to consume the processing queue, the retry queue
    and the dead-letter queue, in that order, each of which then has an
    entry in the registry. *)
Theorem start_subscribes_three_queues (env : Env) (cfg : Config) (w : World) :
  (forall h, exists conn, amqp_connect env h = Resolved conn) ->
  (forall h, exists ch, create_channel env h = Resolved ch) ->
  (forall h, settle env h = Resolved tt) ->
  (forall h, exists tag, consumer_tag env h = Resolved tag) ->
  exists w',
    start env cfg w = Fin w' (Returned true) /\
    isConnected w' = true /\
    consumed (hist w')
    = (queues_paymentsDead cfg :: queues_paymentsRetry cfg :: queues_paymentsProcess cfg
         :: consumed (hist w))%list /\
    is_Some (consumers w' !! queues_paymentsProcess cfg) /\
    is_Some (consumers w' !! queues_paymentsRetry cfg) /\
    is_Some (consumers w' !! queues_paymentsDead cfg).
Proof.
  intros Hconn Hchan Hsettle Htag. unfold start, try_catch.
  rewrite bind_run, connect_run. cbn -[scheduleReconnect].
  match goal with
  | |- context [amqp_connect env ?h] => destruct (Hconn h) as [conn Hc]; rewrite Hc
  end.
  match goal with
  | |- context [create_channel env ?h] => destruct (Hchan h) as [ch Hch]; rewrite Hch
  end.
  rewrite Hsettle. simpl.
  unfold consume, require_channel, bind, get, request, modify. simpl.
  match goal with
  | |- context [consumer_tag env ?h] => destruct (Htag h) as [t1 Ht1]; rewrite Ht1
  end.
  simpl.
  match goal with
  | |- context [consumer_tag env ?h] => destruct (Htag h) as [t2 Ht2]; rewrite Ht2
  end.
  simpl.
  match goal with
  | |- context [consumer_tag env ?h] => destruct (Htag h) as [t3 Ht3]; rewrite Ht3
  end.
  simpl.
  eexists. split; [reflexivity|]. simpl. split; [reflexivity|]. split; [reflexivity|].
  split; [|split].
  - destruct (decide (queues_paymentsDead cfg = queues_paymentsProcess cfg)) as [->|Hne1];
      [rewrite lookup_insert_eq; eauto|rewrite lookup_insert_ne by done].
    destruct (decide (queues_paymentsRetry cfg = queues_paymentsProcess cfg)) as [->|Hne2];
      [rewrite lookup_insert_eq; eauto|rewrite lookup_insert_ne by done].
    rewrite lookup_insert_eq; eauto.
  - destruct (decide (queues_paymentsDead cfg = queues_paymentsRetry cfg)) as [->|Hne1];
      [rewrite lookup_insert_eq; eauto|rewrite lookup_insert_ne by done].
    rewrite lookup_insert_eq; eauto.
  - rewrite lookup_insert_eq; eauto.
Qed.

Lemma start_subscribes_three_queues_witness :
  exists w',
    start env_tags config (new_client "payment-service") = Fin w' (Returned true) /\
    consumed (hist w') = ["payments.dead"; "payments.retry"; "payments.process"].
Proof.
  destruct (start_subscribes_three_queues env_tags config (new_client "payment-service"))
    as (w' & Hrun & _ & Hcons & _).
  - intros h. by exists 1%nat.
  - intros h. by exists 1%nat.
  - reflexivity.
  - intros h. by eexists.
  - exists w'. split; [exact Hrun|exact Hcons].
Defined.

(* ================================================================== *)
(** * The audit hash and the configuration check *)

Lemma ToInt32_range (x : Z) : - 2 ^ 31 <= ToInt32 x < 2 ^ 31.
Proof.
  unfold ToInt32. pose proof (Z.mod_pos_bound (x + 2 ^ 31) (2 ^ 32) ltac:(lia)). lia.
Qed.

Lemma ToInt32_small (x : Z) : - 2 ^ 31 <= x < 2 ^ 31 -> ToInt32 x = x.
Proof.
  intros H. unfold ToInt32. rewrite Z.mod_small by lia. lia.
Qed.

Lemma ToInt32_congr (a b : Z) : a mod 2 ^ 32 = b mod 2 ^ 32 -> ToInt32 a = ToInt32 b.
Proof.
  intros H. unfold ToInt32.
  rewrite (Zplus_mod a), (Zplus_mod b), H. reflexivity.
Qed.

Lemma ToInt32_mod (x : Z) : ToInt32 x mod 2 ^ 32 = x mod 2 ^ 32.
Proof.
  unfold ToInt32.
  rewrite Zminus_mod, Zmod_mod, <- Zminus_mod.
  f_equal. lia.
Qed.

(** One turn of the loop is multiplication by 31 plus the character,
    brought back to 32 bits. *)
Lemma hash_step_31 (hash char : Z) : hash_step hash char = ToInt32 (31 * hash + char).
Proof.
  unfold hash_step, js_and, js_shl.
  rewrite Z.land_diag, (ToInt32_small (ToInt32 _)) by apply ToInt32_range.
  apply ToInt32_congr.
  rewrite Z.shiftl_mul_pow2 by lia.
  rewrite Zplus_mod, Zminus_mod, ToInt32_mod.
  rewrite (Zmult_mod (ToInt32 hash)), ToInt32_mod, <- Zmult_mod.
  rewrite <- Zminus_mod, <- Zplus_mod. f_equal. lia.
Qed.

Lemma hash_fold_31 (str : list Z) (h p : Z) :
  h mod 2 ^ 32 = p mod 2 ^ 32 ->
  fold_left hash_step str h mod 2 ^ 32
  = fold_left (fun h c => 31 * h + c) str p mod 2 ^ 32.
Proof.
  revert h p. induction str as [|c str IH]; intros h p Hhp; simpl; [exact Hhp|].
  apply IH. rewrite hash_step_31, ToInt32_mod.
  rewrite Zplus_mod, Zmult_mod, Hhp, <- Zmult_mod, <- Zplus_mod. reflexivity.
Qed.

(** X27: the number [generateHash] renders in base 16 is always a signed
    32-bit integer, and it is the polynomial hash with multiplier 31 of the
    string's code units (the hash Java uses for strings) reduced to 32 bits;
    the empty string hashes to 0. *)
Theorem generateHash_is_polynomial_31 (str : list Z) :
  - 2 ^ 31 <= generateHash_number str < 2 ^ 31 /\
  generateHash_number str = ToInt32 (poly31 str) /\
  generateHash str = toString16 (ToInt32 (poly31 str)) /\
  generateHash [] = "0".
Proof.
  assert (Hrange : - 2 ^ 31 <= generateHash_number str < 2 ^ 31).
  { unfold generateHash_number. destruct str as [|c str] using rev_ind; [simpl; lia|].
    rewrite fold_left_app. simpl. rewrite hash_step_31. apply ToInt32_range. }
  assert (Heq : generateHash_number str = ToInt32 (poly31 str)).
  { rewrite <- (ToInt32_small _ Hrange). apply ToInt32_congr.
    unfold generateHash_number, poly31. by apply hash_fold_31. }
  split; [exact Hrange|]. split; [exact Heq|]. split; [|reflexivity].
  unfold generateHash. by rewrite Heq.
Qed.

(** In Node, hashing the five characters of "hello" gives 5e918d2. *)
Example generateHash_hello : generateHash (char_codes "hello") = "5e918d2".
Proof. reflexivity. Qed.

(** X28: [validateConfig] throws only in production, and there exactly when
    RABBITMQ_HOST or JWT_SECRET is unset or empty; the message lists the
    missing names in that order. Outside production it returns true
    whatever is missing. *)
Theorem validateConfig_outcomes (penv : gmap string string) :
  (isProduction penv = false -> validateConfig penv = inr true) /\
  (isProduction penv = true ->
     match env_missing penv "RABBITMQ_HOST", env_missing penv "JWT_SECRET" with
     | false, false => validateConfig penv = inr true
     | true, false =>
         validateConfig penv = inl "Missing required environment variables: RABBITMQ_HOST"
     | false, true =>
         validateConfig penv = inl "Missing required environment variables: JWT_SECRET"
     | true, true =>
         validateConfig penv
         = inl "Missing required environment variables: RABBITMQ_HOST, JWT_SECRET"
     end).
Proof.
  unfold validateConfig, required. simpl. split; intros Hprod; rewrite Hprod.
  - by rewrite andb_false_r.
  - by destruct (env_missing penv "RABBITMQ_HOST"), (env_missing penv "JWT_SECRET").
Qed.

Lemma validateConfig_outcomes_witness :
  validateConfig {[ "NODE_ENV" := "production"; "RABBITMQ_HOST" := "rabbitmq";
                    "JWT_SECRET" := "" ]}
  = inl "Missing required environment variables: JWT_SECRET" /\
  validateConfig {[ "NODE_ENV" := "development" ]} = inr true.
Proof.
  split.
  - destruct (validateConfig_outcomes
                {[ "NODE_ENV" := "production"; "RABBITMQ_HOST" := "rabbitmq";
                   "JWT_SECRET" := "" ]}) as [_ Hprod].
    apply Hprod. reflexivity.
  - apply (validateConfig_outcomes {[ "NODE_ENV" := "development" ]}). reflexivity.
Defined.
